(** * AppPowerSwitcher: the foreground-event pipeline, embedded in Rocq

    A shallow embedding of the Python sources
      - [src/application/power_switcher_app.py]         (PowerSwitcherApp)
      - [src/infrastructure/windows/event_listener.py]  (EventListener)
      - [src/infrastructure/configuration/config_manager.py]
      - [src/infrastructure/power_management/power_cfg_manager.py]
      - [src/infrastructure/windows/process_info.py]
      - [src/utils/logging_config.py]
    Stateful code is written in state-passing style; code that may raise
    returns a [res]; what the operating system answers (powercfg, the
    Win32 calls, thread scheduling) is an explicit input. *)

From Stdlib Require Import ZArith Lia Ascii String List Bool.
From stdpp Require Import base gmap strings list.
Import ListNotations.
Open Scope string_scope.
Open Scope list_scope.

(** ** Python strings

    A [str] is a sequence of code points; the model keeps the code points
    below 256 (Rocq's [ascii]).  [lower] and [strip] are [str.lower] and
    [str.strip] on that range. *)

Module PyStr.

Definition str := string.

(** [str.isspace] for one character: TAB..CR, FS..US, SPACE, NEL, NBSP. *)
Definition isspace (c : ascii) : bool :=
  let n := N_of_ascii c in
  ((9 <=? n) && (n <=? 13) || (28 <=? n) && (n <=? 32) || (n =? 133) || (n =? 160))%N.

(** Upper-case letters are A..Z and the Latin-1 block 0xC0..0xDE without
    the multiplication sign 0xD7; each has its lower-case form 32 above. *)
Definition lower_char (c : ascii) : ascii :=
  let n := N_of_ascii c in
  if ((65 <=? n) && (n <=? 90) || (192 <=? n) && (n <=? 222) && negb (n =? 215))%N
  then ascii_of_N (n + 32) else c.

Fixpoint lower (s : str) : str :=
  match s with
  | EmptyString => EmptyString
  | String c r => String (lower_char c) (lower r)
  end.

Fixpoint lstrip (s : str) : str :=
  match s with
  | EmptyString => EmptyString
  | String c r => if isspace c then lstrip r else s
  end.

Fixpoint rstrip (s : str) : str :=
  match s with
  | EmptyString => EmptyString
  | String c r =>
      match rstrip r with
      | EmptyString => if isspace c then EmptyString else String c EmptyString
      | r' => String c r'
      end
  end.

Definition strip (s : str) : str := rstrip (lstrip s).

(** Truth value of a [str]: the empty string is false. *)
Definition nonempty (s : str) : bool :=
  match s with EmptyString => false | String _ _ => true end.

(** Truth value of an object that is [None] or a [str]. *)
Definition truthy (o : option str) : bool :=
  match o with Some s => nonempty s | None => false end.

(** [str.splitlines] on the model's characters: a line ends at LF, VT, FF,
    CR (CR LF counts once), FS, GS, RS or NEL; the breaks are dropped and
    no empty line is reported after the last break. *)
Definition is_linebreak (c : ascii) : bool :=
  let n := N_of_ascii c in
  ((10 <=? n) && (n <=? 13) || (28 <=? n) && (n <=? 30) || (n =? 133))%N.

(** [cur] is the line read so far; [after_cr] tells that the previous
    character was a CR, whose LF, if one follows, belongs to it. *)
Fixpoint splitlines_from (cur : str) (after_cr : bool) (s : str) : list str :=
  match s with
  | EmptyString => if nonempty cur then [cur] else []
  | String c r =>
      if after_cr && (N_of_ascii c =? 10)%N then splitlines_from cur false r
      else if is_linebreak c then cur :: splitlines_from EmptyString (N_of_ascii c =? 13)%N r
      else splitlines_from (cur +:+ String c EmptyString) false r
  end.

Definition splitlines (s : str) : list str := splitlines_from EmptyString false s.

(** Every character of [s] passes the test [p]. *)
Fixpoint all_chars (p : ascii -> bool) (s : str) : bool :=
  match s with
  | EmptyString => true
  | String c r => p c && all_chars p r
  end.

End PyStr.
Export PyStr.

(** ** Exceptions and results

    Every exception class below derives from [Exception]; [queue.Empty]
    and [queue.Full] are singled out because the sources catch them by
    name. *)

Inductive PyExc :=
| QueueEmpty
| QueueFull
| FileNotFoundError
| RuntimeError (msg : str)
| OtherException (msg : str).

Inductive res (A : Type) :=
| Ret (a : A)
| Raise (e : PyExc).
Arguments Ret {A} a.
Arguments Raise {A} e.

(** ** queue.Queue

    [maxsize <= 0] means an unbounded queue, as in the standard library.
    An item is [None] (the stop sentinel) or a process name. *)

Module Queue.

Definition Item := option str.

Record t := mk { maxsize : Z; items : list Item }.

Definition new (maxsize : Z) : t := mk maxsize [].

Definition qsize (q : t) : nat := length (items q).

Definition full (q : t) : bool :=
  (0 <? maxsize q)%Z && (maxsize q <=? Z.of_nat (qsize q))%Z.

(** [put_nowait]: [put(item, block=False)] raises [queue.Full] at once
    when no free slot is available. *)
Definition put_nowait (x : Item) (q : t) : res unit * t :=
  if full q then (Raise QueueFull, q)
  else (Ret tt, mk (maxsize q) (items q ++ [x])).

(** [get(block=True, timeout)] when no producer runs during the wait:
    the oldest item, or [queue.Empty] once the timeout has elapsed. *)
Definition get (q : t) : res Item * t :=
  match items q with
  | [] => (Raise QueueEmpty, q)
  | x :: r => (Ret x, mk (maxsize q) r)
  end.

(** [n] calls of [get] in a row. *)
Fixpoint drain (n : nat) (q : t) : list (res Item) * t :=
  match n with
  | O => ([], q)
  | S n' =>
      let '(r, q') := get q in
      let '(rs, q'') := drain n' q' in
      (r :: rs, q'')
  end.

End Queue.

(** ** ConfigManager (config_manager.py)

    The fields the pipeline reads: the process map and the default plan.
    What [configparser] made of the file is an input of [load_config]. *)

Module ConfigManager.

Definition GUID_BALANCED : str := "381b4222-f694-41f0-9685-ff5bb260df2e".

Record t := mk {
  _app_power_map : gmap string str;      (* lower-case process name -> GUID *)
  _default_power_plan : option str
}.

(** [__init__]: nothing is loaded yet. *)
Definition init : t := mk ∅ None.

(** The [General] section as the parser delivers it: missing, raising
    while it is read, or present with the value of [default_power_plan]
    ([None] when the key is missing, so that the fallback applies). *)
Inductive GeneralSection :=
| GeneralAbsent
| GeneralRaises
| General (default_power_plan : option str).

Inductive MapSection :=
| MapAbsent
| MapRaises
| MapItems (entries : list (str * str)).

Inductive ConfigRead :=
| FileMissing      (* no file, and the default file could not be created *)
| ReadNothing      (* [read] returned no file name *)
| ParserError      (* [configparser.Error] or another exception *)
| Parsed (g : GeneralSection) (m : MapSection).

(** The loop over [items(SECTION_PROCESS_POWER_MAP)]. *)
Definition add_entry (m : gmap string str) (kv : str * str) : gmap string str :=
  let clean_process_name := strip (fst kv) in
  let clean_power_plan_guid := strip (snd kv) in
  if nonempty clean_process_name && nonempty clean_power_plan_guid
  then <[lower clean_process_name := clean_power_plan_guid]> m
  else m.

Definition build_map (entries : list (str * str)) : gmap string str :=
  fold_left add_entry entries ∅.

Definition load_config (self : t) (f : ConfigRead) : bool * t :=
  match f with
  | FileMissing => (false, self)
  | ReadNothing | ParserError => (false, mk ∅ (Some GUID_BALANCED))
  | Parsed g m =>
      let d :=
        match g with
        | General (Some v) => strip v
        | General None => strip GUID_BALANCED
        | GeneralAbsent | GeneralRaises => GUID_BALANCED
        end in
      let mp :=
        match m with
        | MapItems entries => build_map entries
        | MapAbsent | MapRaises => ∅
        end in
      (true, mk mp (Some d))
  end.

Definition get_power_plan_for_process (self : t) (process_name : str) : option str :=
  if negb (nonempty process_name) then None
  else
    let lookup_name := strip (lower process_name) in
    _app_power_map self !! lookup_name.

Definition get_default_power_plan (self : t) : option str :=
  _default_power_plan self.

(** The dictionary comprehension of [update_app_power_map]. *)
Definition update_entry (m : gmap string str) (kv : str * str) : gmap string str :=
  if nonempty (strip (fst kv)) && nonempty (strip (snd kv))
  then <[lower (strip (fst kv)) := strip (snd kv)]> m
  else m.

Definition update_app_power_map (self : t) (new_map_data : list (str * str)) : t :=
  mk (fold_left update_entry new_map_data ∅) (_default_power_plan self).

Definition update_general_settings (self : t) (default_power_plan_guid : option str) : t :=
  match default_power_plan_guid with
  | Some g => mk (_app_power_map self) (Some (strip g))
  | None => self
  end.

(** The states a ConfigManager goes through: [__init__], then any of its
    own methods that write its fields. *)
Inductive reachable : t -> Prop :=
| reach_init : reachable init
| reach_load_config self f :
    reachable self -> reachable (snd (load_config self f))
| reach_update_app_power_map self new_map_data :
    reachable self -> reachable (update_app_power_map self new_map_data)
| reach_update_general_settings self guid :
    reachable self -> reachable (update_general_settings self guid).

(** What every writer of [_default_power_plan] establishes: the stored
    default, when there is one, is already stripped. *)
Definition default_stripped (self : t) : Prop :=
  forall d, _default_power_plan self = Some d -> strip d = d.

(** Every stored plan is a non-empty, stripped string. *)
Definition clean (m : gmap string str) : Prop :=
  forall k v, m !! k = Some v -> nonempty v = true /\ strip v = v.

End ConfigManager.

(** ** PowerCfgManager (power_cfg_manager.py)

    [subprocess.run] is the only door to the system: the operating
    system is a state [OS] and a function that answers a command line.
    [issued] records every command line handed to it. *)

Module PowerCfgManager.

Definition POWERCARD_COMMAND : str := "powercfg".
Definition SET_ACTIVE_ARG : str := "/setactive".
Definition GET_ACTIVE_SCHEME_ARG : str := "/getactivescheme".

Record CompletedProcess := Completed { returncode : Z; stdout : str; stderr : str }.

(** *** GUID_PARSE_REGEX

    [GUID:\s*([0-9a-fA-F]{8}-[0-9a-fA-F]{4}-[0-9a-fA-F]{4}-[0-9a-fA-F]{4}-[0-9a-fA-F]{12})]
    compiled with [re.IGNORECASE]; [search] returns group 1 of the
    leftmost match. *)

Definition is_hex (c : ascii) : bool :=
  let n := N_of_ascii c in
  ((48 <=? n) && (n <=? 57) || (65 <=? n) && (n <=? 70) || (97 <=? n) && (n <=? 102))%N.

(** [n] hexadecimal digits at the head of [s]: the digits and the rest. *)
Fixpoint take_hex (n : nat) (s : str) : option (str * str) :=
  match n with
  | O => Some (EmptyString, s)
  | S n' =>
      match s with
      | String c r =>
          if is_hex c then
            match take_hex n' r with
            | Some (d, rest) => Some (String c d, rest)
            | None => None
            end
          else None
      | EmptyString => None
      end
  end.

(** A literal of the pattern, matched without regard to case. *)
Fixpoint take_literal (lit s : str) : option str :=
  match lit with
  | EmptyString => Some s
  | String p lit' =>
      match s with
      | String c r =>
          if Ascii.eqb (lower_char c) (lower_char p) then take_literal lit' r else None
      | EmptyString => None
      end
  end.

Definition match_here (s : str) : option str :=
  match take_literal "GUID:" s with
  | None => None
  | Some s0 =>
      match take_hex 8 (lstrip s0) with
      | None => None
      | Some (g1, s1) =>
      match take_literal "-" s1 with
      | None => None
      | Some s1' =>
      match take_hex 4 s1' with
      | None => None
      | Some (g2, s2) =>
      match take_literal "-" s2 with
      | None => None
      | Some s2' =>
      match take_hex 4 s2' with
      | None => None
      | Some (g3, s3) =>
      match take_literal "-" s3 with
      | None => None
      | Some s3' =>
      match take_hex 4 s3' with
      | None => None
      | Some (g4, s4) =>
      match take_literal "-" s4 with
      | None => None
      | Some s4' =>
      match take_hex 12 s4' with
      | None => None
      | Some (g5, _) =>
          Some (g1 +:+ "-" +:+ g2 +:+ "-" +:+ g3 +:+ "-" +:+ g4 +:+ "-" +:+ g5)
      end end end end end end end end end
  end.

Fixpoint GUID_PARSE_REGEX_search (s : str) : option str :=
  match match_here s with
  | Some g => Some g
  | None =>
      match s with
      | String _ r => GUID_PARSE_REGEX_search r
      | EmptyString => None
      end
  end.

Record t := mk {
  _name_to_guid_map : gmap string str;   (* lower-case name -> GUID *)
  _guid_to_name_map : gmap string str    (* lower-case GUID -> name *)
}.

Section WithOS.

Variable OS : Type.
Variable subprocess_run : list str -> OS -> res CompletedProcess * OS.

Record Proc := mkProc { os : OS; issued : list (list str) }.

Definition run (command : list str) (p : Proc) : res CompletedProcess * Proc :=
  let '(r, os') := subprocess_run command (os p) in
  (r, mkProc os' (issued p ++ [command])).

(** [switch_power_plan]; the argument is [None] or a [str]. *)
Definition switch_power_plan (power_plan_guid : option str) (p : Proc) : bool * Proc :=
  match power_plan_guid with
  | None => (false, p)
  | Some g =>
      if negb (nonempty g) then (false, p)
      else
        let command_identifier := strip g in
        let command := [POWERCARD_COMMAND; SET_ACTIVE_ARG; command_identifier] in
        match run command p with
        | (Ret result, p') => ((returncode result =? 0)%Z, p')
        | (Raise _, p') => (false, p')
        end
  end.

Definition get_active_scheme_guid (p : Proc) : option str * Proc :=
  let command := [POWERCARD_COMMAND; GET_ACTIVE_SCHEME_ARG] in
  match run command p with
  | (Ret result, p') =>
      if (returncode result =? 0)%Z then
        match GUID_PARSE_REGEX_search (stdout result) with
        | Some g => (Some (strip g), p')
        | None => (None, p')
        end
      else (None, p')
  | (Raise _, p') => (None, p')
  end.

End WithOS.

Arguments mkProc {OS} os issued.
Arguments os {OS} p.
Arguments issued {OS} p.

Definition get_power_plan_name_from_guid (self : t) (guid : option str) : option str :=
  match guid with
  | None => None
  | Some g =>
      if negb (nonempty g) then None
      else _guid_to_name_map self !! lower (strip g)
  end.

(** *** The shape of a GUID

    36 characters: hexadecimal digits, with a dash at the positions 8,
    13, 18 and 23. *)
Definition guid_char_ok (i : nat) (c : ascii) : bool :=
  if (Nat.eqb i 8 || Nat.eqb i 13 || Nat.eqb i 18 || Nat.eqb i 23)%bool
  then Ascii.eqb c "-" else is_hex c.

Fixpoint shaped_from (i : nat) (s : str) : bool :=
  match s with
  | EmptyString => true
  | String c r => guid_char_ok i c && shaped_from (S i) r
  end.

Definition is_guid (g : str) : bool :=
  Nat.eqb (String.length g) 36 && shaped_from 0 g.

(** *** POWER_PLAN_LIST_REGEX

    [GUID:\s*(<guid>)\s+\((.*?)\)\s*\*?\s*] compiled with [re.IGNORECASE];
    [search] returns the groups 1 and 2 of the leftmost match.  The
    optional tail of the pattern matches the empty string, so a match
    ends where the first closing parenthesis is found. *)

(** The GUID of the pattern at the head of [s]: the GUID and the rest. *)
Definition take_guid (s : str) : option (str * str) :=
  match take_hex 8 s with
  | None => None
  | Some (g1, s1) =>
  match take_literal "-" s1 with
  | None => None
  | Some s1' =>
  match take_hex 4 s1' with
  | None => None
  | Some (g2, s2) =>
  match take_literal "-" s2 with
  | None => None
  | Some s2' =>
  match take_hex 4 s2' with
  | None => None
  | Some (g3, s3) =>
  match take_literal "-" s3 with
  | None => None
  | Some s3' =>
  match take_hex 4 s3' with
  | None => None
  | Some (g4, s4) =>
  match take_literal "-" s4 with
  | None => None
  | Some s4' =>
  match take_hex 12 s4' with
  | None => None
  | Some (g5, rest) =>
      Some (g1 +:+ "-" +:+ g2 +:+ "-" +:+ g3 +:+ "-" +:+ g4 +:+ "-" +:+ g5, rest)
  end end end end end end end end end.

(** [(.*?)\)]: the shortest text up to a closing parenthesis; the dot
    does not match a line feed. *)
Fixpoint take_name (s : str) : option str :=
  match s with
  | EmptyString => None
  | String c r =>
      if Ascii.eqb c ")" then Some EmptyString
      else if (N_of_ascii c =? 10)%N then None
      else
        match take_name r with
        | Some n => Some (String c n)
        | None => None
        end
  end.

Definition list_match_here (s : str) : option (str * str) :=
  match take_literal "GUID:" s with
  | None => None
  | Some s0 =>
      match take_guid (lstrip s0) with
      | None => None
      | Some (guid, s1) =>
          match s1 with
          | String c _ =>
              if isspace c then
                match lstrip s1 with
                | String p s2 =>
                    if Ascii.eqb p "(" then
                      match take_name s2 with
                      | Some name => Some (guid, name)
                      | None => None
                      end
                    else None
                | EmptyString => None
                end
              else None
          | EmptyString => None
          end
      end
  end.

Fixpoint POWER_PLAN_LIST_REGEX_search (s : str) : option (str * str) :=
  match list_match_here s with
  | Some m => Some m
  | None =>
      match s with
      | String _ r => POWER_PLAN_LIST_REGEX_search r
      | EmptyString => None
      end
  end.

Definition LIST_ARG : str := "/list".

(** The body of the loop over the lines of [powercfg /list]. *)
Definition add_scheme (self : t) (line : str) : t :=
  match POWER_PLAN_LIST_REGEX_search line with
  | Some (g, n) =>
      let guid := strip g in
      let name := strip n in
      if nonempty guid && nonempty name then
        mk (<[lower name := guid]> (_name_to_guid_map self))
           (<[lower guid := name]> (_guid_to_name_map self))
      else self
  | None => self
  end.

Definition load_lines (lines : list str) : t := fold_left add_scheme lines (mk ∅ ∅).

Section Loader.

Variable OS : Type.
Variable subprocess_run : list str -> OS -> res CompletedProcess * OS.

(** [_load_available_schemes]: whatever the manager held is replaced. *)
Definition _load_available_schemes (self : t) (p : Proc OS) : t * Proc OS :=
  let command := [POWERCARD_COMMAND; LIST_ARG] in
  match run OS subprocess_run command p with
  | (Ret result, p') =>
      if (returncode result =? 0)%Z
      then (load_lines (splitlines (stdout result)), p')
      else (mk ∅ ∅, p')
  | (Raise _, p') => (mk ∅ ∅, p')
  end.

(** [__init__] *)
Definition init (p : Proc OS) : t * Proc OS := _load_available_schemes (mk ∅ ∅) p.

End Loader.

Definition get_available_schemes (self : t) : gmap string str := _name_to_guid_map self.

Definition get_available_schemes_guid_name_map (self : t) : gmap string str :=
  _guid_to_name_map self.

(** What the loader lets into the two maps: GUIDs of the right shape,
    filed under their lower-case form, and names that are non-empty and
    stripped. *)
Definition schemes_ok (self : t) : Prop :=
  (forall k name, _guid_to_name_map self !! k = Some name ->
     (exists guid, is_guid guid = true /\ k = lower guid) /\
     nonempty name = true /\ strip name = name) /\
  (forall k guid, _name_to_guid_map self !! k = Some guid -> is_guid guid = true).

(** A letter of the word that opens the pattern cannot start before its
    first G. *)
Definition not_g (c : ascii) : bool := negb (Ascii.eqb (lower_char c) "g").

Definition not_paren_or_lf (c : ascii) : bool :=
  negb (Ascii.eqb c ")") && negb (N_of_ascii c =? 10)%N.

End PowerCfgManager.

(** ** Logging

    A record keeps the level, the text of the message (the format string
    of the source, shortened to its first sentence) and the values
    interpolated into it. *)

Inductive Level := DEBUG | INFO | WARNING | ERROR | CRITICAL.

Record LogRecord := Log { level : Level; message : str; args : list str }.

Definition exc_text (e : PyExc) : str :=
  match e with
  | QueueEmpty => "queue.Empty"
  | QueueFull => "queue.Full"
  | FileNotFoundError => "FileNotFoundError"
  | RuntimeError msg => msg
  | OtherException msg => msg
  end.

(** ** Threads

    A [threading.Thread] object is followed through its life: created,
    started but not yet scheduled, blocked inside its loop, finished. *)

Inductive Phase := Created | Pending | InLoop | Finished.

Definition is_alive (p : Phase) : bool :=
  match p with
  | Pending | InLoop => true
  | Created | Finished => false
  end.

(** [Thread.join]: joining a thread that was never started raises. *)
Definition join_allowed (p : Phase) : bool :=
  match p with Created => false | _ => true end.

(** ** EventListener (event_listener.py) *)

Module EventListener.

Definition EVENT_SYSTEM_FOREGROUND : Z := 3.

(** A reference to the one [queue.Queue] object that
    [PowerSwitcherApp.__init__] creates; [None] is Python's [None]. *)
Inductive qref := event_queue.

Definition same_object (a b : option qref) : bool :=
  match a, b with
  | None, None => true
  | Some event_queue, Some event_queue => true
  | _, _ => false
  end.

(** The module-level variables shared with the callback. *)
Module Global.
Record t := mk {
  _processing_queue : option qref;
  _hook_handle : option Z;
  _listener_thread_id : option Z;
  _win_event_proc_ref : bool              (* [true]: holds the callback *)
}.
Definition init : t := mk None None None false.
(** No hook handle, no thread id and no callback reference are held. *)
Definition cleared (g : t) : Prop :=
  _hook_handle g = None /\ _listener_thread_id g = None /\ _win_event_proc_ref g = false.
End Global.

Record t := mk {
  _processing_queue : option qref;
  _listener_thread : option Phase;
  _is_running : bool
}.

(** [__init__(processing_queue)] *)
Definition init : t := mk (Some event_queue) None false.

(** *** The callback

    The answer of [get_process_name_from_hwnd] for the window of the
    notification is an input.  The result names the branch taken, which
    the source reports through its log. *)

Inductive Published :=
| Ignored            (* another event class *)
| Unresolved         (* no process name: nothing is submitted *)
| NoQueue            (* the global queue reference is [None] *)
| Delivered
| Dropped            (* [queue.Full]: "Processing queue is full, dropped ..." *)
| PutFailed (e : PyExc).

Definition _global_win_event_callback (event : Z) (process_name : option str)
    (g : Global.t) (q : Queue.t) : Published * Queue.t :=
  if negb (event =? EVENT_SYSTEM_FOREGROUND)%Z then (Ignored, q)
  else if negb (truthy process_name) then (Unresolved, q)
  else
    match Global._processing_queue g with
    | None => (NoQueue, q)
    | Some event_queue =>
        match Queue.put_nowait process_name q with
        | (Ret _, q') => (Delivered, q')
        | (Raise QueueFull, q') => (Dropped, q')
        | (Raise e, q') => (PutFailed e, q')
        end
    end.

(** Publishing a batch of resolved names with no receive in between. *)
Fixpoint publish_all (names : list str) (g : Global.t) (q : Queue.t)
    : list Published * Queue.t :=
  match names with
  | [] => ([], q)
  | n :: rest =>
      let '(r, q') := _global_win_event_callback EVENT_SYSTEM_FOREGROUND (Some n) g q in
      let '(rs, q'') := publish_all rest g q' in
      (r :: rs, q'')
  end.

(** *** The listener thread

    What the Win32 calls answer inside the listener thread. *)
Record ThreadEnv := mkThreadEnv {
  GetCurrentThreadId : res Z;
  SetWinEventHook : res (option Z)    (* the handle; NULL on failure *)
}.

(** What the thread did, in order. *)
Inductive Step :=
| HookRequested
| EnteredMessageLoop
| LeftMessageLoop
| UnhookRequested (handle : Z).

Definition handle_valid (h : option Z) : bool :=
  match h with
  | Some v => negb (v =? 0)%Z
  | None => false
  end.

(** [_cleanup_thread_entry]; the comparison with the current thread id
    sits outside every [try], so a raising [GetCurrentThreadId] escapes. *)
Definition _cleanup_thread_entry (env : ThreadEnv) (self : t) (g : Global.t)
    : res unit * Global.t * list Step :=
  let '(hook, steps) :=
    match Global._hook_handle g with
    | Some h => if negb (h =? 0)%Z then (None, [UnhookRequested h]) else (Some h, [])
    | None => (None, [])
    end in
  let queue :=
    match Global._processing_queue g with
    | Some r => if same_object (Some r) (_processing_queue self) then None else Some r
    | None => None
    end in
  match GetCurrentThreadId env with
  | Raise e => (Raise e, Global.mk queue hook (Global._listener_thread_id g) false, steps)
  | Ret me =>
      let tid :=
        match Global._listener_thread_id g with
        | Some i => if (i =? me)%Z then None else Some i
        | None => None
        end in
      (Ret tt, Global.mk queue hook tid false, steps)
  end.

(** The outcome of the first half of [_thread_entry]: the thread sits in
    its message loop, or it has returned (or died with an exception). *)
Inductive Entry := Looping | Returned | Died (e : PyExc).

Definition entry_of (r : res unit) : Entry :=
  match r with Ret _ => Returned | Raise e => Died e end.

(** [_thread_entry] up to the message loop. *)
Definition _thread_entry (env : ThreadEnv) (self : t) (g : Global.t)
    : Entry * t * Global.t * list Step :=
  let g := Global.mk (_processing_queue self) (Global._hook_handle g)
                     (Global._listener_thread_id g) (Global._win_event_proc_ref g) in
  match GetCurrentThreadId env with
  | Raise _ =>
      let self := mk (_processing_queue self) (_listener_thread self) false in
      let '(r, g, steps) := _cleanup_thread_entry env self g in
      (entry_of r, self, g, steps)
  | Ret me =>
      let g := Global.mk (Global._processing_queue g) (Global._hook_handle g) (Some me) true in
      match SetWinEventHook env with
      | Raise _ =>
          (* except Exception: logged; finally: cleanup *)
          let '(r, g, steps) := _cleanup_thread_entry env self g in
          (entry_of r, self, g, HookRequested :: steps)
      | Ret h =>
          let g := Global.mk (Global._processing_queue g) h
                             (Global._listener_thread_id g) (Global._win_event_proc_ref g) in
          if negb (handle_valid h) then
            (* cleanup and return (an exception of the cleanup is caught
               and logged); the finally block then cleans up again *)
            let '(_, g, steps1) := _cleanup_thread_entry env self g in
            let '(r2, g, steps2) := _cleanup_thread_entry env self g in
            (entry_of r2, self, g, HookRequested :: steps1 ++ steps2)
          else (Looping, self, g, [HookRequested; EnteredMessageLoop])
      end
  end.

(** [_thread_entry] from the end of the message loop: the [finally]
    block (an exception of the loop is caught and logged before it). *)
Definition _thread_exit (env : ThreadEnv) (self : t) (g : Global.t)
    : Entry * Global.t * list Step :=
  let '(r, g, steps) := _cleanup_thread_entry env self g in
  (entry_of r, g, LeftMessageLoop :: steps).

(** The listener thread advanced as far as it gets on its own: a pending
    thread runs [_thread_entry]; [quit] tells whether its message loop
    ends (WM_QUIT arrived, or the loop failed). *)
Definition run_thread (env : ThreadEnv) (quit : bool) (self : t) (g : Global.t)
    : t * Global.t * list Step :=
  match _listener_thread self with
  | Some Pending =>
      let '(e, self', g', steps) := _thread_entry env self g in
      match e with
      | Looping =>
          if quit then
            let '(_, g'', steps') := _thread_exit env self' g' in
            (mk (_processing_queue self') (Some Finished) (_is_running self'), g'', steps ++ steps')
          else (mk (_processing_queue self') (Some InLoop) (_is_running self'), g', steps)
      | _ => (mk (_processing_queue self') (Some Finished) (_is_running self'), g', steps)
      end
  | Some InLoop =>
      if quit then
        let '(_, g', steps) := _thread_exit env self g in
        (mk (_processing_queue self) (Some Finished) (_is_running self), g', steps)
      else (self, g, [])
  | _ => (self, g, [])
  end.

(** [start]: [spawn] is the outcome of [Thread.start()]. *)
Definition start (spawn : res unit) (self : t) : res unit * t :=
  if _is_running self then (Ret tt, self)
  else
    match spawn with
    | Raise e => (Raise e, mk (_processing_queue self) (Some Created) true)
    | Ret _ => (Ret tt, mk (_processing_queue self) (Some Pending) true)
    end.

(** [_clear_global_state] *)
Definition _clear_global_state (self : t) (g : Global.t) : t * Global.t :=
  if same_object (Global._processing_queue g) (_processing_queue self)
  then (mk None (_listener_thread self) (_is_running self), Global.mk None None None false)
  else (self, Global.mk (Global._processing_queue g) None None false).

(** What the system answers while [stop] runs. *)
Record StopEnv := mkStopEnv {
  PostThreadMessageW : res bool;
  thread_env : ThreadEnv;
  listener_quits : bool        (* the message loop ends within the join timeout *)
}.

Definition stop (env : StopEnv) (self : t) (g : Global.t)
    : res unit * t * Global.t * list LogRecord :=
  if negb (_is_running self) then
    let '(self', g') := _clear_global_state self g in
    (Ret tt, self', g', [Log WARNING "EventListener is not running." []])
  else
    let self := mk (_processing_queue self) (_listener_thread self) false in
    let posted :=
      match Global._listener_thread_id g with
      | Some _ =>
          match PostThreadMessageW env with
          | Ret true => [Log DEBUG "Posted WM_QUIT message to listener thread." []]
          | Ret false => [Log ERROR "PostThreadMessageW failed." []]
          | Raise e => [Log ERROR "An unexpected error occurred calling PostThreadMessageW" [exc_text e]]
          end
      | None => [Log WARNING "Listener thread ID is not available. Cannot post WM_QUIT message." []]
      end in
    match _listener_thread self with
    | Some p =>
        if is_alive p then
          if negb (join_allowed p) then
            (Raise (RuntimeError "cannot join thread before it is started"), self, g, posted)
          else
            let '(self1, g1, _) := run_thread (thread_env env) (listener_quits env) self g in
            let joined :=
              match _listener_thread self1 with
              | Some p1 =>
                  if is_alive p1
                  then [Log WARNING "EventListener thread (ctypes) did not stop within timeout." []]
                  else [Log INFO "EventListener thread (ctypes) joined successfully." []]
              | None => []
              end in
            let '(self2, g2) := _clear_global_state self1 g1 in
            (Ret tt, self2, g2, posted ++ joined)
        else
          let '(self2, g2) := _clear_global_state self g in
          (Ret tt, self2, g2, posted)
    | None =>
        let '(self2, g2) := _clear_global_state self g in
        (Ret tt, self2, g2, posted)
    end.



End EventListener.

(** ** Process names (process_info.py)

    The Win32 calls behind [get_process_name_from_hwnd] and
    [os.path.basename] are inputs; [Api] records the calls made. *)

Module ProcessInfo.

Record Win32 := mkWin32 {
  GetWindowThreadProcessId : Z -> Z * Z;          (* thread id, process id *)
  OpenProcess : Z -> res (option Z);              (* the handle; NULL on failure *)
  QueryFullProcessImageNameW : Z -> res (bool * str);
  CloseHandle : Z -> res bool;
  basename : str -> str                           (* os.path.basename *)
}.

Inductive Api :=
| Api_GetWindowThreadProcessId (hwnd : Z)
| Api_OpenProcess (process_id : Z)
| Api_QueryFullProcessImageNameW (process_handle : Z)
| Api_CloseHandle (process_handle : Z).

(** The [finally] clause: a handle that is not NULL is closed; what
    [CloseHandle] answers, or raises, only reaches the log. *)
Definition close (process_handle : option Z) : list Api :=
  match process_handle with
  | Some h => if negb (h =? 0)%Z then [Api_CloseHandle h] else []
  | None => []
  end.

Definition get_process_name_from_hwnd (w : Win32) (hwnd : option Z)
    : option str * list Api :=
  match hwnd with
  | None => (None, [])
  | Some hwnd =>
      if (hwnd =? 0)%Z then (None, [])
      else
        let '(thread_id, process_id_val) := GetWindowThreadProcessId w hwnd in
        if (thread_id =? 0)%Z then (None, [Api_GetWindowThreadProcessId hwnd])
        else if (process_id_val =? 0)%Z then (None, [Api_GetWindowThreadProcessId hwnd])
        else
          match OpenProcess w process_id_val with
          | Raise _ =>
              (None, [Api_GetWindowThreadProcessId hwnd; Api_OpenProcess process_id_val])
          | Ret process_handle =>
              match process_handle with
              | Some h =>
                  if negb (h =? 0)%Z then
                    match QueryFullProcessImageNameW w h with
                    | Ret (true, process_path) =>
                        (Some (basename w process_path),
                         [Api_GetWindowThreadProcessId hwnd; Api_OpenProcess process_id_val;
                          Api_QueryFullProcessImageNameW h] ++ close process_handle)
                    | Ret (false, _) | Raise _ =>
                        (None,
                         [Api_GetWindowThreadProcessId hwnd; Api_OpenProcess process_id_val;
                          Api_QueryFullProcessImageNameW h] ++ close process_handle)
                    end
                  else
                    (None,
                     [Api_GetWindowThreadProcessId hwnd; Api_OpenProcess process_id_val]
                       ++ close process_handle)
              | None =>
                  (None,
                   [Api_GetWindowThreadProcessId hwnd; Api_OpenProcess process_id_val]
                     ++ close process_handle)
              end
          end
  end.

(** The callback as the window manager calls it: the process name is
    asked for only when the event is a foreground change. *)
Definition on_win_event (w : Win32) (event : Z) (hwnd : option Z)
    (g : EventListener.Global.t) (q : Queue.t)
    : EventListener.Published * Queue.t * list Api :=
  if negb (event =? EventListener.EVENT_SYSTEM_FOREGROUND)%Z
  then (EventListener.Ignored, q, [])
  else
    let '(process_name, api) := get_process_name_from_hwnd w hwnd in
    let '(r, q') := EventListener._global_win_event_callback event process_name g q in
    (r, q', api).

End ProcessInfo.

(** ** Logging set-up (logging_config.py)

    The root logger is its level and its handlers; whether the rotating
    file handler can be created is an input. *)

Module LoggingConfig.

Definition DEFAULT_LOG_LEVEL : Z := 20.          (* logging.INFO *)

Inductive Handler :=
| RotatingFileHandler (handler_level : Z)
| StreamHandler (handler_level : Z).

Record RootLogger := mkRoot { root_level : Z; handlers : list Handler }.

Definition configure_logging (log_level : option Z) (file_handler : res unit)
    (root_logger : RootLogger) : RootLogger :=
  match handlers root_logger with
  | _ :: _ => root_logger
  | [] =>
      let level := match log_level with Some l => l | None => DEFAULT_LOG_LEVEL end in
      let with_file :=
        match file_handler with
        | Ret _ => handlers root_logger ++ [RotatingFileHandler level]
        | Raise _ => handlers root_logger
        end in
      mkRoot level (with_file ++ [StreamHandler level])
  end.

End LoggingConfig.

(** ** PowerSwitcherApp (power_switcher_app.py) *)

Module PowerSwitcherApp.

Import EventListener.

Record t := mk {
  _event_queue : Queue.t;
  _event_listener : EventListener.t;
  _processing_thread : option Phase;
  _running : bool;                                   (* threading.Event *)
  _last_processed_process : option str;
  _last_applied_power_plan_identifier : option str;
  _last_known_active_guid : option str
}.

(** The attributes [__init__] sets, the two managers apart (they live in
    the world of the collaborators below). *)
Definition init : t :=
  mk (Queue.new 100) EventListener.init None false None None None.

Definition set_event_queue (q : Queue.t) (a : t) : t :=
  mk q (_event_listener a) (_processing_thread a) (_running a)
     (_last_processed_process a) (_last_applied_power_plan_identifier a)
     (_last_known_active_guid a).

Definition set_event_listener (l : EventListener.t) (a : t) : t :=
  mk (_event_queue a) l (_processing_thread a) (_running a)
     (_last_processed_process a) (_last_applied_power_plan_identifier a)
     (_last_known_active_guid a).

Definition set_processing_thread (p : option Phase) (a : t) : t :=
  mk (_event_queue a) (_event_listener a) p (_running a)
     (_last_processed_process a) (_last_applied_power_plan_identifier a)
     (_last_known_active_guid a).

Definition set_running (b : bool) (a : t) : t :=
  mk (_event_queue a) (_event_listener a) (_processing_thread a) b
     (_last_processed_process a) (_last_applied_power_plan_identifier a)
     (_last_known_active_guid a).

Definition set_last_processed_process (n : option str) (a : t) : t :=
  mk (_event_queue a) (_event_listener a) (_processing_thread a) (_running a)
     n (_last_applied_power_plan_identifier a) (_last_known_active_guid a).

(** The two assignments that follow a match or a successful switch. *)
Definition set_applied (target : str) (a : t) : t :=
  mk (_event_queue a) (_event_listener a) (_processing_thread a) (_running a)
     (_last_processed_process a) (Some target) (Some (lower target)).

(** The calls the application makes on its two managers. *)
Inductive Call :=
| Call_load_config
| Call_get_available_schemes_guid_name_map
| Call_get_power_plan_for_process (process_name : str)
| Call_get_default_power_plan
| Call_get_active_scheme_guid
| Call_get_power_plan_name_from_guid (guid : str)
| Call_switch_power_plan (guid : str).

Definition is_switch (c : Call) : bool :=
  match c with Call_switch_power_plan _ => true | _ => false end.

Definition is_resolution (c : Call) : bool :=
  match c with Call_get_power_plan_for_process _ => true | _ => false end.

(** A call on the Power Controller: a query of, or a change to, the
    active plan. *)
Definition is_power_call (c : Call) : bool :=
  match c with
  | Call_get_active_scheme_guid | Call_switch_power_plan _ => true
  | _ => false
  end.

(** How one pass through the body of the [while] ends. *)
Inductive Flow := FallThrough | Continue | Break.

(** How an observed run of the loop ends: it left the loop, it is still
    looping when the observation stops, or an exception escaped it. *)
Inductive LoopEnd := Exited | StillLooping | Crashed (e : PyExc).

Record StopEnv := mkStopEnv {
  listener_env : EventListener.StopEnv;
  processor_exits : bool       (* the processing thread ends within the join timeout *)
}.

Record StartEnv := mkStartEnv {
  spawn_listener : res unit;   (* Thread.start() of the listener thread *)
  spawn_processor : res unit;  (* Thread.start() of the processing thread *)
  on_failure : StopEnv
}.

Section WithCollaborators.

(** The state of everything behind [_config_manager] and
    [_power_manager], and the methods the application calls on them.
    Each may change that state and may raise. *)
Variable W : Type.

Record Collaborators := {
  cm_load_config : W -> res bool * W;
  cm_get_power_plan_for_process : str -> W -> res (option str) * W;
  cm_get_default_power_plan : W -> res (option str) * W;
  pm_get_available_schemes_guid_name_map : W -> res (gmap string str) * W;
  pm_get_active_scheme_guid : W -> res (option str) * W;
  pm_get_power_plan_name_from_guid : str -> W -> res (option str) * W;
  pm_switch_power_plan : str -> W -> res bool * W
}.

Variable C : Collaborators.

Record Sys := mkSys {
  app : t;
  globals : Global.t;
  world : W;
  calls : list Call;
  log : list LogRecord
}.

Definition M (A : Type) : Type := Sys -> res A * Sys.

Definition ret {A} (a : A) : M A := fun s => (Ret a, s).

Definition bind {A B} (m : M A) (k : A -> M B) : M B :=
  fun s =>
    match m s with
    | (Ret a, s') => k a s'
    | (Raise e, s') => (Raise e, s')
    end.

Definition raise {A} (e : PyExc) : M A := fun s => (Raise e, s).

Notation "x <- c1 ;; c2" := (bind c1 (fun x => c2))
  (at level 100, c1 at next level, right associativity).
Notation "c1 ;; c2" := (bind c1 (fun _ => c2))
  (at level 100, right associativity).

Definition logm (lvl : Level) (msg : str) (vals : list str) : M unit :=
  fun s => (Ret tt, mkSys (app s) (globals s) (world s) (calls s) (log s ++ [Log lvl msg vals])).

Definition call {A} (c : Call) (f : W -> res A * W) : M A :=
  fun s =>
    let '(r, w) := f (world s) in
    (r, mkSys (app s) (globals s) w (calls s ++ [c]) (log s)).

Definition get_app : M t := fun s => (Ret (app s), s).

Definition modify_app (f : t -> t) : M unit :=
  fun s => (Ret tt, mkSys (f (app s)) (globals s) (world s) (calls s) (log s)).

(** [self._event_queue.get(block=True, timeout=0.5)] *)
Definition queue_get : M Queue.Item :=
  fun s =>
    let '(r, q) := Queue.get (_event_queue (app s)) in
    (r, mkSys (set_event_queue q (app s)) (globals s) (world s) (calls s) (log s)).

(** *** [_process_queue]: the body of one pass *)

(** Lines 260-280: the target plan for a process name, or [None] when
    the pass ends with [continue]. *)
Definition resolve_target (process_name : str) : M (option str) :=
  target <- call (Call_get_power_plan_for_process process_name)
                 (cm_get_power_plan_for_process C process_name) ;;
  target <- match target with
            | Some g => ret (Some g)
            | None =>
                logm DEBUG "Process '{process_name}' not found in config map." [process_name] ;;
                d <- call Call_get_default_power_plan (cm_get_default_power_plan C) ;;
                if truthy d then ret d
                else
                  (logm WARNING "Default power plan GUID for process '{process_name}' is empty or None from config."
                        [process_name] ;;
                   ret None)
            end ;;
  match target with
  | None => ret None
  | Some g =>
      let target_power_plan_guid := strip g in
      if nonempty target_power_plan_guid then
        (logm DEBUG "Target power plan GUID for '{process_name}': {target_power_plan_guid}"
              [process_name; target_power_plan_guid] ;;
         ret (Some target_power_plan_guid))
      else
        (logm WARNING "Resolved target power plan GUID for process '{process_name}' is empty or whitespace only."
              [process_name] ;;
         ret None)
  end.

(** Lines 246-288: duplicate check, resolution and the query of the
    active plan.  [Some (target, active)] when the pass reaches the
    comparison, [None] when it ends with [continue] before. *)
Definition resolve_and_query (process_name : str) : M (option (str * str)) :=
  logm DEBUG "Processing received process name from queue: {process_name}" [process_name] ;;
  a <- get_app ;;
  if bool_decide (Some process_name = _last_processed_process a) then
    (logm DEBUG "Processed same process again: '{process_name}'. Skipping power plan check."
          [process_name] ;;
     ret None)
  else
    (modify_app (set_last_processed_process (Some process_name)) ;;
     target <- resolve_target process_name ;;
     match target with
     | None => ret None
     | Some target_power_plan_guid =>
         current_active_guid <- call Call_get_active_scheme_guid (pm_get_active_scheme_guid C) ;;
         match current_active_guid with
         | Some active =>
             if nonempty active then ret (Some (target_power_plan_guid, active))
             else
               (logm ERROR "Failed to get current active power scheme GUID from system." [] ;;
                ret None)
         | None =>
             logm ERROR "Failed to get current active power scheme GUID from system." [] ;;
             ret None
         end
     end).

(** Lines 290-327: the comparison and what follows it. *)
Definition compare_and_switch (process_name target_power_plan_guid current_active_guid : str)
    : M Flow :=
  if bool_decide (lower current_active_guid = lower target_power_plan_guid) then
    (_ <- call (Call_get_power_plan_name_from_guid current_active_guid)
               (pm_get_power_plan_name_from_guid C current_active_guid) ;;
     _ <- call (Call_get_power_plan_name_from_guid target_power_plan_guid)
               (pm_get_power_plan_name_from_guid C target_power_plan_guid) ;;
     logm DEBUG "Current active plan is already the target plan for '{process_name}'. No switch needed."
          [current_active_guid; process_name; target_power_plan_guid] ;;
     a <- get_app ;;
     (if bool_decide (_last_known_active_guid a = Some (lower target_power_plan_guid))
      then ret tt
      else
        (logm DEBUG "Updating _last_applied_power_plan_identifier and _last_known_active_guid."
              [process_name] ;;
         modify_app (set_applied target_power_plan_guid))) ;;
     ret Continue)
  else
    (_ <- call (Call_get_power_plan_name_from_guid current_active_guid)
               (pm_get_power_plan_name_from_guid C current_active_guid) ;;
     _ <- call (Call_get_power_plan_name_from_guid target_power_plan_guid)
               (pm_get_power_plan_name_from_guid C target_power_plan_guid) ;;
     logm INFO "Current active plan is different from target for '{process_name}'. Attempting to switch."
          [current_active_guid; process_name; target_power_plan_guid] ;;
     switch_success <- call (Call_switch_power_plan target_power_plan_guid)
                            (pm_switch_power_plan C target_power_plan_guid) ;;
     (if switch_success : bool then
        (logm INFO "Power plan switch requested successfully for '{process_name}' to GUID '{target_power_plan_guid}'."
              [process_name; target_power_plan_guid] ;;
         modify_app (set_applied target_power_plan_guid))
      else
        logm ERROR "Failed to switch power plan for '{process_name}' to GUID '{target_power_plan_guid}'."
             [process_name; target_power_plan_guid]) ;;
     ret FallThrough).

(** The core business logic for one process name (lines 246-329). *)
Definition process_item (process_name : str) : M Flow :=
  r <- resolve_and_query process_name ;;
  match r with
  | None => ret Continue
  | Some (target_power_plan_guid, current_active_guid) =>
      compare_and_switch process_name target_power_plan_guid current_active_guid
  end.

(** The [try] block of one pass. *)
Definition loop_body : M Flow :=
  process_name <- queue_get ;;
  match process_name with
  | None =>
      logm DEBUG "ProcessingThread received stop sentinel (None). Exiting loop." [] ;;
      ret Break
  | Some name => process_item name
  end.

(** One pass with its two [except] clauses. *)
Definition iteration : M Flow :=
  fun s =>
    match loop_body s with
    | (Ret f, s') => (Ret f, s')
    | (Raise QueueEmpty, s') => (Ret FallThrough, s')
    | (Raise e, s') =>
        (logm ERROR "An unexpected error occurred in the ProcessingThread queue loop" [exc_text e] ;;
         ret FallThrough) s'
    end.

(** [_process_queue], observed for [passes] evaluations of the loop
    condition. *)
Fixpoint _process_queue (passes : nat) (s : Sys) : LoopEnd * Sys :=
  match passes with
  | O => (StillLooping, s)
  | S n =>
      if _running (app s) then
        match iteration s with
        | (Ret Break, s') => (Exited, s')
        | (Ret _, s') => _process_queue n s'
        | (Raise e, s') => (Crashed e, s')
        end
      else (Exited, s)
  end.

(** *** [stop] and [_cleanup_threads_and_hooks] *)

Definition stop_listener (env : StopEnv) : M unit :=
  fun s =>
    let '(r, l, g, lg) := EventListener.stop (listener_env env) (_event_listener (app s)) (globals s) in
    let s' := mkSys (set_event_listener l (app s)) g (world s) (calls s) (log s ++ lg) in
    match r with
    | Ret _ => logm INFO "EventListener stop method called." [] s'
    | Raise e => logm ERROR "Failed to stop EventListener cleanly" [exc_text e] s'
    end.

Definition join_processing_thread (env : StopEnv) : M unit :=
  a <- get_app ;;
  match _processing_thread a with
  | Some p =>
      if is_alive p then
        (logm DEBUG "Waiting for ProcessingThread to join during cleanup..." [] ;;
         if negb (join_allowed p) then raise (RuntimeError "cannot join thread before it is started")
         else if processor_exits env then
           (modify_app (set_processing_thread (Some Finished)) ;;
            logm INFO "ProcessingThread joined successfully." [])
         else logm ERROR "ProcessingThread did not stop cleanly within timeout." [])
      else logm DEBUG "ProcessingThread was not alive or not initialized during cleanup." []
  | None => logm DEBUG "ProcessingThread was not initialized." []
  end.

Definition _cleanup_threads_and_hooks (env : StopEnv) : M unit :=
  logm INFO "Initiating PowerSwitcherApp cleanup sequence." [] ;;
  stop_listener env ;;
  join_processing_thread env ;;
  logm INFO "PowerSwitcherApp cleanup sequence finished." [].

Definition put_sentinel : M unit :=
  fun s =>
    match Queue.put_nowait None (_event_queue (app s)) with
    | (Ret _, q) =>
        logm DEBUG "Put sentinel value (None) into the event queue to unblock processing thread." []
             (mkSys (set_event_queue q (app s)) (globals s) (world s) (calls s) (log s))
    | (Raise QueueFull, _) =>
        logm WARNING "Event queue is full during stop sequence, could not put sentinel." [] s
    | (Raise e, _) =>
        logm ERROR "Error putting sentinel into queue during stop" [exc_text e] s
    end.

Definition stop (env : StopEnv) : M unit :=
  a <- get_app ;;
  if negb (_running a) then
    (logm WARNING "PowerSwitcherApp is already stopping or is stopped." [] ;;
     _cleanup_threads_and_hooks env)
  else
    (logm INFO "Stopping PowerSwitcherApp." [] ;;
     modify_app (set_running false) ;;
     put_sentinel ;;
     _cleanup_threads_and_hooks env ;;
     logm INFO "PowerSwitcherApp stopped." []).

(** *** [start] *)

(** Steps 1 and 3: the configuration is reloaded and the schemes are
    listed; both results only reach the log. *)
Definition start_managers : M unit :=
  logm INFO "Starting PowerSwitcherApp." [] ;;
  load_success <- call Call_load_config (cm_load_config C) ;;
  (if load_success : bool then ret tt
   else logm ERROR "Failed to (re)load configuration during app startup." []) ;;
  available_schemes <- call Call_get_available_schemes_guid_name_map
                            (pm_get_available_schemes_guid_name_map C) ;;
  if bool_decide (available_schemes = ∅)
  then logm WARNING "No power schemes were loaded by PowerCfgManager." []
  else logm INFO "Available Power Schemes loaded by PowerManager" [].

(** Step 4: the listener, with the [except] clause around its start. *)
Definition start_listener (env : StartEnv) : M unit :=
  fun s =>
    let '(r, l) := EventListener.start (spawn_listener env) (_event_listener (app s)) in
    let s' := mkSys (set_event_listener l (app s)) (globals s) (world s) (calls s) (log s) in
    match r with
    | Ret _ => logm INFO "EventListener thread requested to start." [] s'
    | Raise e =>
        (logm CRITICAL "Failed to start EventListener thread" [exc_text e] ;;
         stop (on_failure env) ;;
         raise (RuntimeError "Failed to start EventListener, exiting.")) s'
    end.

(** Step 5: the running flag and the processing thread. *)
Definition start_processing (env : StartEnv) : M bool :=
  modify_app (set_running true) ;;
  modify_app (set_processing_thread (Some Created)) ;;
  match spawn_processor env with
  | Raise e => raise e
  | Ret _ =>
      modify_app (set_processing_thread (Some Pending)) ;;
      logm INFO "ProcessingThread requested to start." [] ;;
      logm INFO "PowerSwitcherApp start sequence finished." [] ;;
      ret true
  end.

Definition start (env : StartEnv) : M bool :=
  start_managers ;;
  start_listener env ;;
  start_processing env.

(** The listener thread gets the processor: it runs [_thread_entry] and,
    when [quit] holds, leaves its message loop. *)
Definition listener_thread_runs (tenv : ThreadEnv) (quit : bool) (s : Sys) : Sys * list Step :=
  let '(l, g, steps) := run_thread tenv quit (_event_listener (app s)) (globals s) in
  (mkSys (set_event_listener l (app s)) g (world s) (calls s) (log s), steps).

(** *** The whole system

    The application right after [__init__], and the things that can
    happen to it, in any order: the coordinator starts or stops it, the
    processing thread makes a pass, the window manager notifies the
    callback, the listener thread runs, and anything else changes the
    state behind the managers. *)

Definition boot (w : W) : Sys := mkSys init Global.init w [] [].

Inductive Action :=
| DoStart (env : StartEnv)
| DoStop (env : StopEnv)
| DoPass
| DoNotify (event : Z) (process_name : option str)
| DoListener (tenv : ThreadEnv) (quit : bool)
| DoWorld (f : W -> W).

Definition exec (s : Sys) (a : Action) : Sys :=
  match a with
  | DoStart env => snd (start env s)
  | DoStop env => snd (stop env s)
  | DoPass => snd (_process_queue 1 s)
  | DoNotify event process_name =>
      let '(_, q) := _global_win_event_callback event process_name (globals s)
                       (_event_queue (app s)) in
      mkSys (set_event_queue q (app s)) (globals s) (world s) (calls s) (log s)
  | DoListener tenv quit => fst (listener_thread_runs tenv quit s)
  | DoWorld f => mkSys (app s) (globals s) (f (world s)) (calls s) (log s)
  end.

Definition run (acts : list Action) (s : Sys) : Sys := fold_left exec acts s.

(** *** Vocabulary of the statements *)

(** The calls made on the way from [s] to [s']. *)
Definition calls_since (s s' : Sys) : list Call :=
  drop (length (calls s)) (calls s').

(** The two plan trackers go together. *)
Definition coupled (a : t) : Prop :=
  forall applied known,
    _last_applied_power_plan_identifier a = Some applied ->
    _last_known_active_guid a = Some known ->
    known = lower applied.

(** Both plan trackers are as they were. *)
Definition same_trackers (a a' : t) : Prop :=
  _last_applied_power_plan_identifier a' = _last_applied_power_plan_identifier a /\
  _last_known_active_guid a' = _last_known_active_guid a.

(** The tracked state already names [target]: the test of line 301. *)
Definition agrees (a : t) (target : str) : bool :=
  bool_decide (_last_known_active_guid a = Some (lower target)).

(** The state in which the body of a pass continues once [get] has
    handed over the oldest item. *)
Definition after_get (s : Sys) : Sys :=
  mkSys (set_event_queue
           (Queue.mk (Queue.maxsize (_event_queue (app s)))
                     (tail (Queue.items (_event_queue (app s)))))
           (app s))
        (globals s) (world s) (calls s) (log s).

(** The processing thread after the join of [_cleanup_threads_and_hooks]. *)
Definition joined (env : StopEnv) (th : option Phase) : option Phase :=
  match th with
  | Some p => if is_alive p && processor_exits env then Some Finished else Some p
  | None => None
  end.

(** The records logged on the way from [s] to [s']. *)
Definition logged_since (s s' : Sys) : list LogRecord :=
  drop (length (log s)) (log s').

(** The number of foreground changes in a list of names: the names that
    differ from the one before them, [last] being before the first. *)
Fixpoint changes (last : option str) (names : list str) : nat :=
  match names with
  | [] => 0
  | n :: rest =>
      (if bool_decide (Some n = last) then 0 else 1) + changes (Some n) rest
  end.

(** The plan trackers are unset, or hold a non-empty identifier and its
    lower-case form. *)
Definition tracked (a : t) : Prop :=
  (_last_applied_power_plan_identifier a = None /\ _last_known_active_guid a = None) \/
  exists target,
    nonempty target = true /\
    _last_applied_power_plan_identifier a = Some target /\
    _last_known_active_guid a = Some (lower target).

(** The friendly-name lookup returns, and changes nothing. *)
Definition names_return : Prop :=
  forall guid w, exists n, pm_get_power_plan_name_from_guid C guid w = (Ret n, w).

End WithCollaborators.

(** An error the loop does not expect; [queue.Empty] is the periodic
    timeout of [get]. *)
Definition unexpected (e : PyExc) : Prop := e <> QueueEmpty.

Arguments mkSys {W} app globals world calls log.
Arguments app {W} s.
Arguments globals {W} s.
Arguments world {W} s.
Arguments calls {W} s.
Arguments log {W} s.

End PowerSwitcherApp.

(** ** The application as [__init__] wires it

    [_config_manager] is a ConfigManager and [_power_manager] a
    PowerCfgManager; none of their methods lets an exception out. *)

Module Wiring.

Import PowerSwitcherApp.

Section WithOS.

Variable OS : Type.
Variable subprocess_run : list str -> OS -> res PowerCfgManager.CompletedProcess * OS.

Record World := mkWorld {
  config_file : ConfigManager.ConfigRead;      (* what reading app_config.ini gives *)
  config_manager : ConfigManager.t;
  power_manager : PowerCfgManager.t;
  proc : PowerCfgManager.Proc OS
}.

Definition collaborators : Collaborators World := {|
  cm_load_config w :=
    let '(ok, c) := ConfigManager.load_config (config_manager w) (config_file w) in
    (Ret ok, mkWorld (config_file w) c (power_manager w) (proc w));
  cm_get_power_plan_for_process process_name w :=
    (Ret (ConfigManager.get_power_plan_for_process (config_manager w) process_name), w);
  cm_get_default_power_plan w :=
    (Ret (ConfigManager.get_default_power_plan (config_manager w)), w);
  pm_get_available_schemes_guid_name_map w :=
    (Ret (PowerCfgManager._guid_to_name_map (power_manager w)), w);
  pm_get_active_scheme_guid w :=
    let '(g, p) := PowerCfgManager.get_active_scheme_guid OS subprocess_run (proc w) in
    (Ret g, mkWorld (config_file w) (config_manager w) (power_manager w) p);
  pm_get_power_plan_name_from_guid guid w :=
    (Ret (PowerCfgManager.get_power_plan_name_from_guid (power_manager w) (Some guid)), w);
  pm_switch_power_plan guid w :=
    let '(ok, p) := PowerCfgManager.switch_power_plan OS subprocess_run (Some guid) (proc w) in
    (Ret ok, mkWorld (config_file w) (config_manager w) (power_manager w) p)
|}.

End WithOS.

Arguments mkWorld {OS} config_file config_manager power_manager proc.
Arguments config_file {OS} w.
Arguments config_manager {OS} w.
Arguments power_manager {OS} w.
Arguments proc {OS} w.

End Wiring.

(** ** A desk to try things on

    A stand-in for the operating system: it remembers the active plan
    and whether [powercfg /setactive] is allowed to succeed. *)

Module Desk.

Import PowerCfgManager.

Definition GUID_HIGH_PERFORMANCE : str := "8c5e7fda-e8bf-4a96-9a85-a6e23a8c635c".
Definition GUID_POWER_SAVER : str := "a1841308-3541-4fab-bc81-f71556f20b4a".

Record t := mk { active : str; may_switch : bool }.

Definition subprocess_run (command : list str) (d : t) : res CompletedProcess * t :=
  match command with
  | [c; a] =>
      if String.eqb c POWERCARD_COMMAND && String.eqb a GET_ACTIVE_SCHEME_ARG
      then (Ret (Completed 0 ("Power Scheme GUID: " +:+ active d +:+ "  (plan)") ""), d)
      else (Raise FileNotFoundError, d)
  | [c; a; g] =>
      if String.eqb c POWERCARD_COMMAND && String.eqb a SET_ACTIVE_ARG then
        if may_switch d then (Ret (Completed 0 "" ""), mk g true)
        else (Ret (Completed 1 "" "Access denied"), d)
      else (Raise FileNotFoundError, d)
  | _ => (Raise FileNotFoundError, d)
  end.

(** A world with one mapping, [chrome.exe] to the high-performance plan,
    and the balanced plan as default. *)
Definition config : ConfigManager.t :=
  snd (ConfigManager.load_config ConfigManager.init
         (ConfigManager.Parsed
            (ConfigManager.General (Some ConfigManager.GUID_BALANCED))
            (ConfigManager.MapItems [("chrome.exe", GUID_HIGH_PERFORMANCE)]))).

Definition world (active : str) (may_switch : bool) : Wiring.World t :=
  Wiring.mkWorld ConfigManager.ReadNothing config (PowerCfgManager.mk ∅ ∅)
                 (mkProc (mk active may_switch) []).

(** The application with [names] waiting in its queue and the running
    flag set. *)
Definition waiting (names : list str) (w : Wiring.World t)
    : PowerSwitcherApp.Sys (Wiring.World t) :=
  PowerSwitcherApp.mkSys
    (PowerSwitcherApp.set_running true
       (PowerSwitcherApp.set_event_queue (Queue.mk 100 (map Some names)) PowerSwitcherApp.init))
    EventListener.Global.init w [] [].

(** The two managers on the desk. *)
Definition managers : PowerSwitcherApp.Collaborators (Wiring.World t) :=
  Wiring.collaborators t subprocess_run.

(** Two [chrome.exe] in a row, then another program; the power saver is
    active. *)
Definition chrome_twice : PowerSwitcherApp.Sys (Wiring.World t) :=
  waiting ["chrome.exe"; "chrome.exe"; "unknown.exe"] (world GUID_POWER_SAVER true).

(** Nothing waits; the plan of [chrome.exe] is active, reported by the
    system in upper case. *)
Definition already_fast : PowerSwitcherApp.Sys (Wiring.World t) :=
  waiting [] (world "8C5E7FDA-E8BF-4A96-9A85-A6E23A8C635C" true).

(** Nothing waits; the power saver is active and may be replaced. *)
Definition saving : PowerSwitcherApp.Sys (Wiring.World t) :=
  waiting [] (world GUID_POWER_SAVER true).

(** A listener has registered the queue. *)
Definition registered : EventListener.Global.t :=
  EventListener.Global.mk (Some EventListener.event_queue) None None false.

(** Managers whose plan lookup raises, whatever the name. *)
Definition faulty : PowerSwitcherApp.Collaborators unit := {|
  PowerSwitcherApp.cm_load_config w := (Ret true, w);
  PowerSwitcherApp.cm_get_power_plan_for_process _ w :=
    (Raise (OtherException "'int' object has no attribute 'lower'"), w);
  PowerSwitcherApp.cm_get_default_power_plan w := (Ret None, w);
  PowerSwitcherApp.pm_get_available_schemes_guid_name_map w := (Ret ∅, w);
  PowerSwitcherApp.pm_get_active_scheme_guid w := (Ret None, w);
  PowerSwitcherApp.pm_get_power_plan_name_from_guid _ w := (Ret None, w);
  PowerSwitcherApp.pm_switch_power_plan _ w := (Ret false, w)
|}.

(** Two items wait for managers that fail. *)
Definition two_items : PowerSwitcherApp.Sys unit :=
  PowerSwitcherApp.mkSys
    (PowerSwitcherApp.set_running true
       (PowerSwitcherApp.set_event_queue (Queue.mk 100 [Some "a.exe"; Some "b.exe"])
          PowerSwitcherApp.init))
    EventListener.Global.init tt [] [].

(** The stop sentinel waits in front of a process name. *)
Definition closing : PowerSwitcherApp.Sys (Wiring.World t) :=
  PowerSwitcherApp.mkSys
    (PowerSwitcherApp.set_running true
       (PowerSwitcherApp.set_event_queue (Queue.mk 100 [None; Some "chrome.exe"])
          PowerSwitcherApp.init))
    EventListener.Global.init (world GUID_POWER_SAVER true) [] [].

(** A listener thread that gets its thread id and a hook handle. *)
Definition hooking : EventListener.ThreadEnv :=
  EventListener.mkThreadEnv (Ret 4711%Z) (Ret (Some 99%Z)).

(** A shutdown in which both threads end in time. *)
Definition quiet : PowerSwitcherApp.StopEnv :=
  PowerSwitcherApp.mkStopEnv (EventListener.mkStopEnv (Ret true) hooking true) true.

(** A start in which the listener thread cannot be created. *)
Definition no_threads : PowerSwitcherApp.StartEnv :=
  PowerSwitcherApp.mkStartEnv (Raise (RuntimeError "can't start new thread")) (Ret tt) quiet.

(** What [powercfg /list] prints on the desk. *)
Definition LF : str := String "010"%char EmptyString.

Definition LIST_OUTPUT : str :=
  LF +:+ "Existing Power Schemes (* Active)" +:+ LF +:+
  "-----------------------------------" +:+ LF +:+
  "Power Scheme GUID: 381b4222-f694-41f0-9685-ff5bb260df2e  (Balanced) *" +:+ LF +:+
  "Power Scheme GUID: 8c5e7fda-e8bf-4a96-9a85-a6e23a8c635c  (High performance)" +:+ LF.

(** A system that knows [powercfg /list] only. *)
Definition listing (command : list str) (d : unit) : res CompletedProcess * unit :=
  match command with
  | [c; a] =>
      if String.eqb c POWERCARD_COMMAND && String.eqb a LIST_ARG
      then (Ret (Completed 0 LIST_OUTPUT ""), d)
      else (Raise FileNotFoundError, d)
  | _ => (Raise FileNotFoundError, d)
  end.

(** [os.path.basename] for Windows paths: what follows the last
    separator. *)
Fixpoint basename_from (cur path : str) : str :=
  match path with
  | EmptyString => cur
  | String c r =>
      if Ascii.eqb c "\" || Ascii.eqb c "/" then basename_from EmptyString r
      else basename_from (cur +:+ String c EmptyString) r
  end.

(** Every window belongs to the browser, whose process can be opened. *)
Definition win32 : ProcessInfo.Win32 :=
  ProcessInfo.mkWin32
    (fun _ => (4711, 4242)%Z)
    (fun _ => Ret (Some 88%Z))
    (fun _ => Ret (true, "C:\Program Files\Google\Chrome\Application\chrome.exe"))
    (fun _ => Ret true)
    (basename_from EmptyString).

End Desk.

(** * Properties *)

(** ** Strings *)

Section StringFacts.

Lemma rstrip_idem (s : str) : rstrip (rstrip s) = rstrip s.
Proof.
  induction s as [|c r IH]; [reflexivity|].
  cbn [rstrip]. destruct (rstrip r) as [|d r'] eqn:E.
  - destruct (isspace c) eqn:Hc; cbn [rstrip]; [reflexivity|].
    rewrite Hc. reflexivity.
  - change (rstrip (String c (String d r'))) with
      (match rstrip (String d r') with
       | EmptyString => if isspace c then EmptyString else String c EmptyString
       | String _ _ as r0 => String c r0
       end).
    rewrite IH. reflexivity.
Qed.

Lemma lstrip_head (s : str) :
  lstrip s = EmptyString \/ exists c r, lstrip s = String c r /\ isspace c = false.
Proof.
  induction s as [|c r IH]; [left; reflexivity|].
  cbn [lstrip]. destruct (isspace c) eqn:Hc; [exact IH|].
  right. exists c, r. split; [reflexivity | exact Hc].
Qed.

Lemma lstrip_rstrip_head (c : ascii) (r : str) :
  isspace c = false -> lstrip (rstrip (String c r)) = rstrip (String c r).
Proof.
  intros Hc. cbn [rstrip]. rewrite Hc.
  destruct (rstrip r); cbn [lstrip]; rewrite Hc; reflexivity.
Qed.

Lemma strip_idem (s : str) : strip (strip s) = strip s.
Proof.
  unfold strip. destruct (lstrip_head s) as [E | (c & r & E & Hc)]; rewrite E.
  - reflexivity.
  - rewrite (lstrip_rstrip_head c r Hc). apply rstrip_idem.
Qed.

Lemma nonempty_false (s : str) : nonempty s = false -> s = EmptyString.
Proof. destruct s; [reflexivity | discriminate]. Qed.

End StringFacts.

(** ** The configuration *)

Section ConfigFacts.

Import ConfigManager.

Lemma GUID_BALANCED_stripped : strip GUID_BALANCED = GUID_BALANCED.
Proof. reflexivity. Qed.

(** Every state a ConfigManager reaches keeps its default stripped. *)
Lemma reachable_default_stripped (self : t) :
  reachable self -> default_stripped self.
Proof.
  induction 1 as [|self f _ IH|self l _ IH|self guid _ IH]; intros d Hd.
  - discriminate Hd.
  - destruct f as [| | |g m]; cbn in Hd.
    + exact (IH d Hd).
    + injection Hd as <-. reflexivity.
    + injection Hd as <-. reflexivity.
    + injection Hd as <-.
      destruct g as [| |[v|]]; try reflexivity; apply strip_idem.
  - exact (IH d Hd).
  - destruct guid as [g|]; cbn in Hd.
    + injection Hd as <-. apply strip_idem.
    + exact (IH d Hd).
Qed.

End ConfigFacts.

(** ** The channel *)

Section ChannelFacts.

Import EventListener.

Lemma put_nowait_full (x : Queue.Item) (q : Queue.t) :
  Queue.full q = true -> Queue.put_nowait x q = (Raise QueueFull, q).
Proof. intros H. unfold Queue.put_nowait. rewrite H. reflexivity. Qed.

Lemma put_nowait_room (x : Queue.Item) (q : Queue.t) :
  Queue.full q = false ->
  Queue.put_nowait x q = (Ret tt, Queue.mk (Queue.maxsize q) (Queue.items q ++ [x])).
Proof. intros H. unfold Queue.put_nowait. rewrite H. reflexivity. Qed.

Lemma full_iff (k : nat) (l : list Queue.Item) :
  (0 < k)%nat -> Queue.full (Queue.mk (Z.of_nat k) l) = bool_decide (k <= length l)%nat.
Proof.
  intros Hk. unfold Queue.full, Queue.qsize. cbn.
  destruct (Z.ltb_spec 0 (Z.of_nat k)); [|lia]. cbn.
  case_bool_decide; [apply Z.leb_le | apply Z.leb_gt]; lia.
Qed.

(** A registered queue and a resolved name: the callback is [put_nowait]. *)
Lemma callback_publishes (g : Global.t) (name : str) (q : Queue.t) :
  Global._processing_queue g = Some event_queue ->
  nonempty name = true ->
  _global_win_event_callback EVENT_SYSTEM_FOREGROUND (Some name) g q =
    if Queue.full q then (Dropped, q)
    else (Delivered, Queue.mk (Queue.maxsize q) (Queue.items q ++ [Some name])).
Proof.
  intros Hg Hn. unfold _global_win_event_callback.
  rewrite Z.eqb_refl. cbn [negb truthy]. rewrite Hn, Hg. cbn [negb].
  unfold Queue.put_nowait. destruct (Queue.full q); reflexivity.
Qed.

(** Publishing into a channel of capacity [k] that already holds [l]:
    the free slots are filled in order and the rest is dropped. *)
Lemma publish_all_fill (g : Global.t) (k : nat) (names : list str) :
  Global._processing_queue g = Some event_queue ->
  Forall (fun n => nonempty n = true) names ->
  (0 < k)%nat ->
  forall l, (length l <= k)%nat ->
  publish_all names g (Queue.mk (Z.of_nat k) l) =
    (repeat Delivered (min (k - length l) (length names)) ++
       repeat Dropped (length names - (k - length l)),
     Queue.mk (Z.of_nat k) (l ++ map Some (take (k - length l) names))).
Proof.
  intros Hg Hnames Hk. induction Hnames as [|n names Hn _ IH]; intros l Hl.
  - cbn. rewrite Nat.min_0_r, take_nil. cbn. rewrite app_nil_r. reflexivity.
  - cbn [publish_all]. rewrite (callback_publishes g n _ Hg Hn).
    rewrite (full_iff k l Hk). case_bool_decide as Hfull.
    + assert (length l = k) as El by lia.
      rewrite (IH l Hl). rewrite El, Nat.sub_diag. cbn.
      rewrite Nat.sub_0_r, take_0. reflexivity.
    + cbn [Queue.maxsize Queue.items].
      assert (length (l ++ [Some n]) <= k)%nat as Hl' by (rewrite length_app; cbn; lia).
      rewrite (IH _ Hl'). rewrite length_app. cbn [length].
      destruct (k - length l)%nat as [|m] eqn:Em; [lia|].
      replace (k - (length l + 1))%nat with m by lia.
      cbn [length take map]. rewrite <- app_assoc. cbn.
      replace (min (S m) (S (length names))) with (S (min m (length names))) by lia.
      reflexivity.
Qed.

End ChannelFacts.

(** ** The engine *)

Ltac unfold_m :=
  unfold PowerSwitcherApp.bind, PowerSwitcherApp.call, PowerSwitcherApp.logm,
    PowerSwitcherApp.get_app, PowerSwitcherApp.modify_app, PowerSwitcherApp.ret,
    PowerSwitcherApp.raise in *.

(** Splits on everything the code branches on. *)
Ltac branches H := cbn in H; repeat (case_match; simplify_eq/=).

(** Closes [exists cs lg, calls = _ ++ cs /\ log = _ ++ lg /\ ...] once
    both lists are explicit. *)
Ltac appended :=
  rewrite <- ?app_assoc; cbn [app];
  do 2 eexists;
  split; [first [reflexivity | symmetry; apply app_nil_r] |];
  split; [first [reflexivity | symmetry; apply app_nil_r] |].

Section EngineFacts.

Import PowerSwitcherApp.

Context {W : Type} (C : Collaborators W).

Lemma resolve_target_effect name (s : Sys W) r s' :
  resolve_target W C name s = (r, s') ->
  app s' = app s /\ globals s' = globals s /\
  exists cs lg, calls s' = calls s ++ cs /\ log s' = log s ++ lg /\
    List.filter is_power_call cs = [] /\ length (List.filter is_resolution cs) = 1%nat.
Proof.
  unfold resolve_target. unfold_m. intros H. branches H.
  all: split; [reflexivity|]; split; [reflexivity|]; appended; split; reflexivity.
Qed.

Lemma resolve_and_query_effect name (s : Sys W) r s' :
  resolve_and_query W C name s = (r, s') ->
  globals s' = globals s /\
  exists cs lg, calls s' = calls s ++ cs /\ log s' = log s ++ lg /\
    List.filter is_switch cs = [] /\ (length (List.filter is_resolution cs) <= 1)%nat /\
    (_last_processed_process (app s) = Some name /\ app s' = app s /\
       world s' = world s /\ cs = [] /\ r = Ret None
     \/ _last_processed_process (app s) <> Some name /\
        app s' = set_last_processed_process (Some name) (app s)).
Proof.
  unfold resolve_and_query, resolve_target. unfold_m. intros H. branches H.
  all: split; [reflexivity|]; appended.
  all: split; [reflexivity|]; split; [cbn; lia|].
  all: match goal with
       | Hd : bool_decide _ = true |- _ =>
           apply bool_decide_eq_true in Hd; left; repeat split; congruence
       | Hd : bool_decide _ = false |- _ =>
           apply bool_decide_eq_false in Hd; right; split; [congruence | reflexivity]
       end.
Qed.


Lemma compare_and_switch_effect name t a (s : Sys W) r s' :
  compare_and_switch W C name t a s = (r, s') ->
  globals s' = globals s /\ r <> Ret Break /\
  exists cs lg, calls s' = calls s ++ cs /\ log s' = log s ++ lg /\
    (length (List.filter is_switch cs) <= 1)%nat /\ List.filter is_resolution cs = [] /\
    (app s' = app s \/ app s' = set_applied t (app s)).
Proof.
  unfold compare_and_switch. unfold_m. intros H. branches H.
  all: split; [reflexivity|]; split; [discriminate|]; appended.
  all: split; [cbn; lia|]; split; [reflexivity|]; auto.
Qed.

(** The comparison finds the target active: no switch, and the trackers
    move only when they did not name the target yet. *)
Lemma compare_equal name t a (s : Sys W) :
  names_return W C ->
  lower a = lower t ->
  exists lg,
    compare_and_switch W C name t a s =
      (Ret Continue,
       mkSys (if agrees (app s) t then app s else set_applied t (app s))
             (globals s) (world s)
             (calls s ++ [Call_get_power_plan_name_from_guid a;
                          Call_get_power_plan_name_from_guid t])
             (log s ++ lg)).
Proof.
  intros Hn Heq. unfold compare_and_switch, agrees. unfold_m.
  rewrite (bool_decide_eq_true_2 _ Heq). cbn.
  destruct (Hn a (world s)) as [n1 E1]. rewrite E1. cbn.
  destruct (Hn t (world s)) as [n2 E2]. rewrite E2. cbn.
  case_bool_decide; cbn; rewrite <- ?app_assoc; cbn [app]; eexists; reflexivity.
Qed.

(** The comparison finds another plan active: one switch call, and the
    trackers follow its answer. *)
Lemma compare_differ name t a (s : Sys W) r w' :
  names_return W C ->
  lower a <> lower t ->
  pm_switch_power_plan W C t (world s) = (r, w') ->
  exists lg,
    compare_and_switch W C name t a s =
      (match r with Ret _ => Ret FallThrough | Raise e => Raise e end,
       mkSys (match r with Ret true => set_applied t (app s) | _ => app s end)
             (globals s) w'
             (calls s ++ [Call_get_power_plan_name_from_guid a;
                          Call_get_power_plan_name_from_guid t;
                          Call_switch_power_plan t])
             (log s ++ lg)).
Proof.
  intros Hn Hne Hsw. unfold compare_and_switch. unfold_m.
  rewrite (bool_decide_eq_false_2 _ Hne). cbn.
  destruct (Hn a (world s)) as [n1 E1]. rewrite E1. cbn.
  destruct (Hn t (world s)) as [n2 E2]. rewrite E2. cbn.
  rewrite Hsw. destruct r as [[|]|e]; cbn; rewrite <- ?app_assoc; cbn [app];
    eexists; reflexivity.
Qed.

Lemma process_item_unfold name (s : Sys W) :
  process_item W C name s =
    match resolve_and_query W C name s with
    | (Ret None, s1) => (Ret Continue, s1)
    | (Ret (Some (t, a)), s1) => compare_and_switch W C name t a s1
    | (Raise e, s1) => (Raise e, s1)
    end.
Proof.
  unfold process_item, bind.
  destruct (resolve_and_query W C name s) as [[[[t a]|]|e] s1]; reflexivity.
Qed.

(** What one process name can do to the state. *)
Lemma process_item_effect name (s : Sys W) r s' :
  process_item W C name s = (r, s') ->
  globals s' = globals s /\ r <> Ret Break /\
  exists cs lg, calls s' = calls s ++ cs /\ log s' = log s ++ lg /\
    (length (List.filter is_switch cs) <= 1)%nat /\
    (length (List.filter is_resolution cs) <= 1)%nat /\
    (_last_processed_process (app s) = Some name /\ app s' = app s /\
       world s' = world s /\ cs = [] /\ r = Ret Continue
     \/ _last_processed_process (app s) <> Some name /\
        (app s' = set_last_processed_process (Some name) (app s) \/
         exists t, app s' = set_applied t (set_last_processed_process (Some name) (app s)))).
Proof.
  rewrite process_item_unfold.
  destruct (resolve_and_query W C name s) as [r1 s1] eqn:E1.
  destruct (resolve_and_query_effect _ _ _ _ E1)
    as (Hg & cs & lg & Hc & Hl & Hsw & Hres & Hcase).
  destruct r1 as [[[t a]|]|e].
  - intros E2.
    destruct (compare_and_switch_effect _ _ _ _ _ _ E2)
      as (Hg' & Hr & cs' & lg' & Hc' & Hl' & Hsw' & Hres' & Happ).
    split; [congruence|]. split; [exact Hr|].
    exists (cs ++ cs'), (lg ++ lg').
    rewrite Hc', Hc, Hl', Hl, !app_assoc, !List.filter_app, !length_app, Hsw, Hres'.
    repeat (split; [first [reflexivity | cbn; lia]|]).
    destruct Hcase as [(_ & _ & _ & _ & ?)|(Hne & Ha)]; [discriminate|].
    right. split; [exact Hne|]. rewrite <- Ha.
    destruct Happ as [->| ->]; [left; reflexivity | right; eexists; reflexivity].
  - intros [= <- <-]. split; [exact Hg|]. split; [discriminate|].
    exists cs, lg. rewrite Hsw.
    repeat (split; [first [assumption | cbn; lia]|]).
    destruct Hcase as [(? & ? & ? & ? & _)|(Hne & Ha)]; [left | right]; auto.
  - intros [= <- <-]. split; [exact Hg|]. split; [discriminate|].
    exists cs, lg. rewrite Hsw.
    repeat (split; [first [assumption | cbn; lia]|]).
    destruct Hcase as [(_ & _ & _ & _ & ?)|(Hne & Ha)]; [discriminate|].
    right. auto.
Qed.


(** *** One pass of the loop *)

Lemma queue_get_item (s : Sys W) x rest :
  Queue.items (_event_queue (app s)) = x :: rest ->
  queue_get W s = (Ret x, after_get W s).
Proof.
  intros H. unfold queue_get, after_get, Queue.get. rewrite H. reflexivity.
Qed.

Lemma loop_body_item (s : Sys W) name rest :
  Queue.items (_event_queue (app s)) = Some name :: rest ->
  loop_body W C s = process_item W C name (after_get W s).
Proof.
  intros H. unfold loop_body, bind. rewrite (queue_get_item s _ _ H). reflexivity.
Qed.

(** A pass never lets an exception out. *)
Lemma iteration_returns (s : Sys W) :
  exists fl s', iteration W C s = (Ret fl, s').
Proof.
  unfold iteration. destruct (loop_body W C s) as [[fl|e] s']; [eauto|].
  destruct e; cbn; eauto.
Qed.

(** What the [except Exception] clause does with an unexpected error. *)
Lemma iteration_catches (s s' : Sys W) e :
  loop_body W C s = (Raise e, s') ->
  unexpected e ->
  iteration W C s =
    (Ret FallThrough,
     mkSys (app s') (globals s') (world s') (calls s')
           (log s' ++ [Log ERROR "An unexpected error occurred in the ProcessingThread queue loop"
                           [exc_text e]])).
Proof.
  intros H He. unfold iteration. rewrite H.
  destruct e; try reflexivity. exfalso. apply He. reflexivity.
Qed.

(** A pass that takes a process name from the queue. *)
Lemma iteration_item_effect (s : Sys W) name rest r s' :
  Queue.items (_event_queue (app s)) = Some name :: rest ->
  iteration W C s = (r, s') ->
  globals s' = globals s /\
  (exists fl, r = Ret fl /\ fl <> Break) /\
  exists cs lg, calls s' = calls s ++ cs /\ log s' = log s ++ lg /\
    (length (List.filter is_switch cs) <= 1)%nat /\
    (length (List.filter is_resolution cs) <= 1)%nat /\
    (_last_processed_process (app s) = Some name /\ app s' = app (after_get W s) /\
       world s' = world s /\ cs = []
     \/ _last_processed_process (app s) <> Some name /\
        (app s' = set_last_processed_process (Some name) (app (after_get W s)) \/
         exists t, app s' =
           set_applied t (set_last_processed_process (Some name) (app (after_get W s))))).
Proof.
  intros Hq. unfold iteration. rewrite (loop_body_item s _ _ Hq).
  destruct (process_item W C name (after_get W s)) as [r1 s1] eqn:E.
  destruct (process_item_effect _ _ _ _ E)
    as (Hg & Hr & cs & lg & Hc & Hl & Hsw & Hres & Hcase).
  assert (Hcase' :
    _last_processed_process (app s) = Some name /\ app s1 = app (after_get W s) /\
       world s1 = world s /\ cs = []
     \/ _last_processed_process (app s) <> Some name /\
        (app s1 = set_last_processed_process (Some name) (app (after_get W s)) \/
         exists t, app s1 =
           set_applied t (set_last_processed_process (Some name) (app (after_get W s))))).
  { destruct Hcase as [(? & ? & ? & ? & _)|(? & ?)]; [left | right]; auto. }
  destruct r1 as [fl|e].
  - intros [= <- <-]. split; [exact Hg|]. split; [exists fl; split; congruence|].
    exists cs, lg. auto 10.
  - destruct e; cbn; intros [= <- <-]; cbn.
    all: split; [exact Hg|]; split; [exists FallThrough; split; [reflexivity | discriminate]|].
    all: first [ exists cs, lg; split; [exact Hc|]; split; [exact Hl|]; now auto
               | exists cs; eexists; split; [exact Hc|]; split;
                 [rewrite Hl, <- app_assoc; reflexivity|]; now auto ].
Qed.

(** A pass over the name processed last leaves everything but the queue
    and the log as it was. *)
Lemma iteration_duplicate (s : Sys W) name rest :
  Queue.items (_event_queue (app s)) = Some name :: rest ->
  _last_processed_process (app s) = Some name ->
  exists lg,
    iteration W C s =
      (Ret Continue, mkSys (app (after_get W s)) (globals s) (world s) (calls s) (log s ++ lg)).
Proof.
  intros Hq Hlast. unfold iteration. rewrite (loop_body_item s _ _ Hq).
  destruct (process_item W C name (after_get W s)) as [r1 s1] eqn:E.
  destruct (process_item_effect _ _ _ _ E)
    as (Hg & _ & cs & lg & Hc & Hl & _ & _ & Hcase).
  destruct Hcase as [(_ & Ha & Hw & -> & ->)|(Hne & _)]; [|contradiction].
  exists lg. destruct s1 as [a1 g1 w1 c1 l1]. cbn in *.
  rewrite app_nil_r in Hc. congruence.
Qed.

(** *** Runs of the loop *)

Lemma process_queue_step (n : nat) (s : Sys W) fl s' :
  _running (app s) = true ->
  iteration W C s = (Ret fl, s') ->
  fl <> Break ->
  _process_queue W C (S n) s = _process_queue W C n s'.
Proof.
  intros Hr Hi Hfl. cbn [_process_queue]. rewrite Hr, Hi.
  destruct fl; [reflexivity | reflexivity | contradiction].
Qed.

Lemma process_queue_stopped (n : nat) (s : Sys W) :
  _running (app s) = false ->
  snd (_process_queue W C n s) = s.
Proof. intros Hr. destruct n; cbn; [|rewrite Hr]; reflexivity. Qed.

(** No exception ever leaves the loop. *)
Lemma process_queue_never_crashes (n : nat) (s : Sys W) e :
  fst (_process_queue W C n s) <> Crashed e.
Proof.
  revert s. induction n as [|n IH]; intros s; cbn; [discriminate|].
  destruct (_running (app s)); [|discriminate].
  destruct (iteration_returns s) as (fl & s' & ->).
  destruct fl; first [apply IH | discriminate].
Qed.

(** A run of duplicates of the name processed last: no call, no change
    of the world or of the trackers. *)
Lemma run_of_duplicates name rest (n : nat) : forall s : Sys W,
  Queue.items (_event_queue (app s)) = repeat (Some name) n ++ rest ->
  _last_processed_process (app s) = Some name ->
  let sn := snd (_process_queue W C n s) in
  calls sn = calls s /\ world sn = world s /\
  _last_applied_power_plan_identifier (app sn) = _last_applied_power_plan_identifier (app s) /\
  _last_known_active_guid (app sn) = _last_known_active_guid (app s).
Proof.
  induction n as [|n IH]; intros s Hq Hlast; [cbn; auto|].
  destruct (_running (app s)) eqn:Hr.
  2:{ cbv zeta. rewrite (process_queue_stopped _ _ Hr). auto. }
  destruct (iteration_duplicate s name _ Hq Hlast) as [lg Hi].
  cbv zeta. rewrite (process_queue_step n s _ _ Hr Hi); [|discriminate].
  apply (IH (mkSys (app (after_get W s)) (globals s) (world s) (calls s) (log s ++ lg))).
  - cbn. rewrite Hq. reflexivity.
  - exact Hlast.
Qed.

End EngineFacts.

(** ** The switch engine: what the specification promises *)

Section EngineClaims.

Import PowerSwitcherApp.

Context {W : Type} (C : Collaborators W).

Lemma calls_since_app (s s' : Sys W) cs :
  calls s' = calls s ++ cs -> calls_since W s s' = cs.
Proof. intros H. unfold calls_since. rewrite H. apply drop_app_length. Qed.

Lemma calls_since_self (s s' : Sys W) :
  calls s' = calls s -> calls_since W s s' = [].
Proof. intros H. unfold calls_since. rewrite H. apply drop_all. Qed.

(** C2 (duplicate suppression).  A process name equal, as a string, to
    the name processed last is discarded: a run of [n >= 1] such names
    makes no call on the managers and leaves the world and the plan
    trackers alone.  Whatever was processed last, of a run of [n]
    identical names only the first reaches the managers: after the whole
    run the calls, the world and the trackers are those after the first
    pass, with at most one plan resolution and at most one switch call
    in total. *)
Theorem C2_duplicates_suppressed name rest (n : nat) (s : Sys W) :
  (1 <= n)%nat ->
  Queue.items (_event_queue (app s)) = repeat (Some name) n ++ rest ->
  let s1 := snd (_process_queue W C 1 s) in
  let sn := snd (_process_queue W C n s) in
  (_last_processed_process (app s) = Some name ->
     calls sn = calls s /\ world sn = world s /\
     _last_applied_power_plan_identifier (app sn) = _last_applied_power_plan_identifier (app s) /\
     _last_known_active_guid (app sn) = _last_known_active_guid (app s))
  /\ calls sn = calls s1 /\ world sn = world s1
  /\ _last_applied_power_plan_identifier (app sn) = _last_applied_power_plan_identifier (app s1)
  /\ _last_known_active_guid (app sn) = _last_known_active_guid (app s1)
  /\ (length (List.filter is_resolution (calls_since W s sn)) <= 1)%nat
  /\ (length (List.filter is_switch (calls_since W s sn)) <= 1)%nat.
Proof.
  intros Hn Hq s1 sn. split.
  { intros Hlast. exact (run_of_duplicates C name rest n s Hq Hlast). }
  destruct n as [|m]; [lia|]. subst s1 sn.
  destruct (_running (app s)) eqn:Hr.
  2:{ rewrite !(process_queue_stopped C _ _ Hr).
      rewrite (calls_since_self s s eq_refl). cbn. repeat split; lia. }
  destruct (iteration W C s) as [r s'] eqn:Hi. cbn [repeat app] in Hq.
  destruct (iteration_item_effect C s name _ r s' Hq Hi)
    as (_ & (fl & -> & Hfl) & cs & lg & Hc & _ & Hsw & Hres & Hcase).
  rewrite (process_queue_step C m s fl s' Hr Hi Hfl).
  rewrite (process_queue_step C 0 s fl s' Hr Hi Hfl). cbn [_process_queue snd].
  assert (Hq' : Queue.items (_event_queue (app s')) = repeat (Some name) m ++ rest).
  { destruct Hcase as [(_ & -> & _)|(_ & [->|[t ->]])]; cbn; rewrite Hq; reflexivity. }
  assert (Hlast' : _last_processed_process (app s') = Some name).
  { destruct Hcase as [(? & -> & _)|(_ & [->|[t ->]])]; cbn; auto. }
  destruct (run_of_duplicates C name rest m s' Hq' Hlast') as (Hc' & Hw' & Ha' & Hk').
  repeat (split; [assumption|]).
  rewrite (calls_since_app s _ cs) by (rewrite Hc'; exact Hc).
  split; assumption.
Qed.

(** C3 (no switch when the target is active).  When the pass reaches the
    comparison with [target] and [active] and the two are equal once
    lower-cased, no switch call is made; the trackers become [target]
    and [lower target] when the tracked GUID differed from
    [lower target], and nothing but the last processed name changes when
    it did not. *)
Theorem C3_no_switch_when_active name target active (s s1 : Sys W) :
  names_return W C ->
  resolve_and_query W C name s = (Ret (Some (target, active)), s1) ->
  lower active = lower target ->
  exists s2,
    process_item W C name s = (Ret Continue, s2) /\
    List.filter is_switch (calls_since W s s2) = [] /\
    world s2 = world s1 /\
    app s2 =
      (if agrees (app s) target
       then set_last_processed_process (Some name) (app s)
       else set_applied target (set_last_processed_process (Some name) (app s))).
Proof.
  intros Hn Hrq Heq.
  destruct (resolve_and_query_effect C _ _ _ _ Hrq)
    as (_ & cs & lg & Hc & _ & Hsw & _ & Hcase).
  destruct Hcase as [(_ & _ & _ & _ & ?)|(_ & Ha)]; [discriminate|].
  destruct (compare_equal C name target active s1 Hn Heq) as [lg' Hcmp].
  rewrite process_item_unfold, Hrq, Hcmp. eexists. split; [reflexivity|].
  cbn [calls world app]. split; [|split; [reflexivity|]].
  - rewrite (calls_since_app s _ (cs ++ [Call_get_power_plan_name_from_guid active;
                                          Call_get_power_plan_name_from_guid target])).
    + rewrite List.filter_app, Hsw. reflexivity.
    + cbn. rewrite Hc, <- app_assoc. reflexivity.
  - rewrite Ha. reflexivity.
Qed.

(** C4 (switch on mismatch).  When the pass reaches the comparison with
    [target] and [active] and the two differ once lower-cased, the
    switch is requested exactly once, for [target].  If the request
    succeeds the trackers become [target] and [lower target]; if it
    fails, or raises, they keep their values.  Nothing is put back into
    the queue, and the name is now the last processed one, so that a
    repetition of the event is discarded. *)
Theorem C4_switch_on_mismatch name target active (s s1 : Sys W) r w' :
  names_return W C ->
  resolve_and_query W C name s = (Ret (Some (target, active)), s1) ->
  lower active <> lower target ->
  pm_switch_power_plan W C target (world s1) = (r, w') ->
  exists s2,
    process_item W C name s =
      (match r with Ret _ => Ret FallThrough | Raise e => Raise e end, s2) /\
    List.filter is_switch (calls_since W s s2) = [Call_switch_power_plan target] /\
    world s2 = w' /\
    app s2 =
      (match r with
       | Ret true => set_applied target (set_last_processed_process (Some name) (app s))
       | _ => set_last_processed_process (Some name) (app s)
       end) /\
    _event_queue (app s2) = _event_queue (app s) /\
    _last_processed_process (app s2) = Some name.
Proof.
  intros Hn Hrq Hne Hsw.
  destruct (resolve_and_query_effect C _ _ _ _ Hrq)
    as (_ & cs & lg & Hc & _ & Hnsw & _ & Hcase).
  destruct Hcase as [(_ & _ & _ & _ & ?)|(_ & Ha)]; [discriminate|].
  destruct (compare_differ C name target active s1 r w' Hn Hne Hsw) as [lg' Hcmp].
  rewrite process_item_unfold, Hrq, Hcmp. eexists. split; [reflexivity|].
  cbn [calls world app]. split; [|split; [reflexivity|]].
  - rewrite (calls_since_app s _ (cs ++ [Call_get_power_plan_name_from_guid active;
                                          Call_get_power_plan_name_from_guid target;
                                          Call_switch_power_plan target])).
    + rewrite List.filter_app, Hnsw. reflexivity.
    + cbn. rewrite Hc, <- app_assoc. reflexivity.
  - rewrite Ha. destruct r as [[|]|e]; repeat split; reflexivity.
Qed.

(** C8 (a failing item does not stop the loop).  When the processing of
    an item raises an unexpected error, the pass catches it, writes an
    ERROR record and ends normally; the item is gone from the queue and
    the loop goes on with the state reached, so the next pass takes the
    next item.  No run of the loop, of any length and from any state,
    ends with an exception. *)
Theorem C8_errors_stay_in_the_pass name rest e (s s' : Sys W) :
  Queue.items (_event_queue (app s)) = Some name :: rest ->
  loop_body W C s = (Raise e, s') ->
  unexpected e ->
  let caught :=
    mkSys (app s') (globals s') (world s') (calls s')
          (log s' ++ [Log ERROR "An unexpected error occurred in the ProcessingThread queue loop"
                          [exc_text e]]) in
  iteration W C s = (Ret FallThrough, caught) /\
  Queue.items (_event_queue (app caught)) = rest /\
  (forall passes, _running (app s) = true ->
     _process_queue W C (S passes) s = _process_queue W C passes caught) /\
  (forall passes (s0 : Sys W) e0, fst (_process_queue W C passes s0) <> Crashed e0).
Proof.
  intros Hq Hbody He caught.
  pose proof (iteration_catches C s s' e Hbody He) as Hi. fold caught in Hi.
  split; [exact Hi|]. split; [|split].
  - destruct (iteration_item_effect C s name rest _ _ Hq Hi)
      as (_ & _ & cs & lg & _ & _ & _ & _ & Hcase).
    destruct Hcase as [(_ & -> & _)|(_ & [->|[t ->]])]; cbn; rewrite Hq; reflexivity.
  - intros passes Hr. apply (process_queue_step C passes s FallThrough caught Hr Hi).
    discriminate.
  - intros passes s0 e0. apply process_queue_never_crashes.
Qed.

End EngineClaims.

(** ** Start and stop *)

Section LifecycleFacts.

Import EventListener PowerSwitcherApp.

Context {W : Type}.

Lemma clear_global_state_cleared self g :
  Global.cleared (snd (_clear_global_state self g)).
Proof.
  unfold _clear_global_state, Global.cleared.
  destruct (same_object _ _); cbn; auto.
Qed.

Ltac after_clear :=
  match goal with
  | |- context [_clear_global_state ?l ?g] =>
      let E := fresh "E" in
      destruct (_clear_global_state l g) as [self2 g2] eqn:E;
      do 3 eexists; split; [reflexivity|];
      change g2 with (snd (self2, g2)); rewrite <- E; apply clear_global_state_cleared
  end.

(** [EventListener.stop] returns, whatever the system answers, and
    leaves no handle and no thread id behind. *)
Lemma listener_stop_returns env self g :
  exists self' g' lg,
    EventListener.stop env self g = (Ret tt, self', g', lg) /\ Global.cleared g'.
Proof.
  unfold EventListener.stop.
  destruct (_is_running self); cbn [negb]; [|after_clear].
  cbn [_listener_thread].
  destruct (_listener_thread self) as [p|]; [|after_clear].
  destruct p; cbn [is_alive join_allowed negb]; try after_clear.
  all: destruct (run_thread _ _ _ g) as [[self1 g1] steps]; after_clear.
Qed.

Lemma stop_listener_spec env (s : Sys W) :
  exists l g lg,
    stop_listener W env s =
      (Ret tt,
       mkSys (set_event_listener l (app s)) g (world s) (calls s)
             (log s ++ lg ++ [Log INFO "EventListener stop method called." []])) /\
    Global.cleared g.
Proof.
  unfold stop_listener.
  destruct (listener_stop_returns (listener_env env) (_event_listener (app s)) (globals s))
    as (l & g & lg & -> & Hg).
  exists l, g, lg. split; [|exact Hg].
  unfold logm. cbn. rewrite <- app_assoc. reflexivity.
Qed.

Lemma join_processing_thread_spec env (s : Sys W) :
  exists lg,
    join_processing_thread W env s =
      (Ret tt,
       mkSys (set_processing_thread (joined env (_processing_thread (app s))) (app s))
             (globals s) (world s) (calls s) (log s ++ lg)).
Proof.
  unfold join_processing_thread, joined, bind, get_app, logm, modify_app, raise.
  destruct s as [a g w c l]. destruct a as [q li th r lp la lk]. cbn.
  destruct th as [[]|]; cbn; try (eexists; reflexivity).
  all: destruct (processor_exits env); cbn; rewrite <- ?app_assoc; eexists; reflexivity.
Qed.

Lemma cleanup_spec env (s : Sys W) :
  exists l g lg,
    _cleanup_threads_and_hooks W env s =
      (Ret tt,
       mkSys (set_processing_thread (joined env (_processing_thread (app s)))
                (set_event_listener l (app s)))
             g (world s) (calls s)
             (log s ++ Log INFO "Initiating PowerSwitcherApp cleanup sequence." [] :: lg)) /\
    Global.cleared g /\
    In (Log INFO "EventListener stop method called." []) lg.
Proof.
  unfold _cleanup_threads_and_hooks, bind. unfold logm at 1.
  match goal with |- context [stop_listener W env ?s0] =>
    destruct (stop_listener_spec env s0) as (l & g & lg & -> & Hg) end.
  match goal with |- context [join_processing_thread W env ?s0] =>
    destruct (join_processing_thread_spec env s0) as (lg' & ->) end.
  exists l, g. eexists. unfold logm. cbn. split; [|split; [exact Hg|]].
  - rewrite <- !app_assoc. cbn. reflexivity.
  - apply in_or_app. right. left. reflexivity.
Qed.

(** [stop] on an application that is not running: the cleanup alone. *)
Lemma stop_when_stopped env (s : Sys W) :
  _running (app s) = false ->
  exists l g lg,
    stop W env s =
      (Ret tt,
       mkSys (set_processing_thread (joined env (_processing_thread (app s)))
                (set_event_listener l (app s)))
             g (world s) (calls s)
             (log s ++ Log WARNING "PowerSwitcherApp is already stopping or is stopped." []
                    :: Log INFO "Initiating PowerSwitcherApp cleanup sequence." [] :: lg)) /\
    Global.cleared g /\
    In (Log INFO "EventListener stop method called." []) lg.
Proof.
  intros Hr. unfold stop, bind, get_app. rewrite Hr. cbn [negb]. unfold logm at 1.
  match goal with |- context [_cleanup_threads_and_hooks W env ?s0] =>
    destruct (cleanup_spec env s0) as (l & g & lg & -> & Hg & Hin) end.
  exists l, g, lg. cbn. rewrite <- app_assoc. auto.
Qed.

(** [stop] on a running application: the flag goes down, the sentinel
    is offered to the queue, then the cleanup. *)
Lemma stop_when_running env (s : Sys W) :
  _running (app s) = true ->
  exists q l g lg,
    stop W env s =
      (Ret tt,
       mkSys (set_processing_thread (joined env (_processing_thread (app s)))
                (set_event_listener l (set_event_queue q (set_running false (app s)))))
             g (world s) (calls s) (log s ++ lg)) /\
    Global.cleared g /\
    In (Log INFO "EventListener stop method called." []) lg /\
    q = (if Queue.full (_event_queue (app s)) then _event_queue (app s)
         else Queue.mk (Queue.maxsize (_event_queue (app s)))
                       (Queue.items (_event_queue (app s)) ++ [None])).
Proof.
  intros Hr. unfold stop, bind, get_app. rewrite Hr. cbn [negb].
  unfold logm at 1. unfold modify_app at 1. cbn [app globals world calls log].
  unfold put_sentinel, Queue.put_nowait. cbn [app globals world calls log set_running _event_queue].
  destruct (Queue.full (_event_queue (app s))) eqn:Hf.
  - unfold logm at 1.
    match goal with |- context [_cleanup_threads_and_hooks W env ?s0] =>
      destruct (cleanup_spec env s0) as (l & g & lg & -> & Hg & Hin) end.
    exists (_event_queue (app s)), l, g. eexists. unfold logm. cbn. split; [|split; [exact Hg|split]].
    + rewrite <- !app_assoc. cbn. destruct s as [[] ? ? ? ?]. reflexivity.
    + do 3 right. apply in_or_app. left. exact Hin.
    + reflexivity.
  - unfold logm at 1.
    match goal with |- context [_cleanup_threads_and_hooks W env ?s0] =>
      destruct (cleanup_spec env s0) as (l & g & lg & -> & Hg & Hin) end.
    eexists _, l, g. eexists. unfold logm. cbn. split; [|split; [exact Hg|split]].
    + rewrite <- !app_assoc. cbn. reflexivity.
    + do 3 right. apply in_or_app. left. exact Hin.
    + reflexivity.
Qed.

End LifecycleFacts.

(** ** Start and stop: what the specification promises *)

Section LifecycleClaims.

Import EventListener PowerSwitcherApp.

Context {W : Type} (C : Collaborators W).

(** C7 (idempotent stop).  Two calls of [stop] in a row, from any state
    and whatever the system answers: both return without an exception
    and the running flag is down after each.  The second call finds the
    application stopped: it puts nothing into the queue and touches
    neither the managers nor the engine state, yet it runs the cleanup:
    the listener's [stop] is called, no hook handle or thread id stays
    behind, and a processing thread still alive is joined. *)
Theorem C7_stop_is_idempotent (s : Sys W) env1 env2 :
  exists s1 s2,
    stop W env1 s = (Ret tt, s1) /\ stop W env2 s1 = (Ret tt, s2) /\
    _running (app s1) = false /\ _running (app s2) = false /\
    _event_queue (app s2) = _event_queue (app s1) /\
    world s2 = world s1 /\ calls s2 = calls s1 /\
    _last_processed_process (app s2) = _last_processed_process (app s1) /\
    same_trackers (app s1) (app s2) /\
    In (Log INFO "Initiating PowerSwitcherApp cleanup sequence." []) (logged_since W s1 s2) /\
    In (Log INFO "EventListener stop method called." []) (logged_since W s1 s2) /\
    Global.cleared (globals s2) /\
    _processing_thread (app s2) = joined env2 (_processing_thread (app s1)).
Proof.
  assert (H1 : exists s1, stop W env1 s = (Ret tt, s1) /\ _running (app s1) = false).
  { destruct (_running (app s)) eqn:Hr.
    - destruct (stop_when_running env1 s Hr) as (q & l & g & lg & -> & _).
      eexists. split; reflexivity.
    - destruct (stop_when_stopped env1 s Hr) as (l & g & lg & -> & _).
      eexists. split; [reflexivity | exact Hr]. }
  destruct H1 as (s1 & E1 & R1).
  destruct (stop_when_stopped env2 s1 R1) as (l & g & lg & E2 & Hg & Hin).
  exists s1. eexists. split; [exact E1|]. split; [exact E2|].
  cbn [app globals world calls log]. split; [exact R1|]. split; [exact R1|].
  do 4 (split; [reflexivity|]).
  split; [split; reflexivity|].
  unfold logged_since. cbn [log]. rewrite drop_app_length.
  split; [apply in_cons, in_eq|].
  split; [do 2 apply in_cons; exact Hin|].
  split; [exact Hg | reflexivity].
Qed.

(** *** The trackers through start and stop *)

Lemma stop_same_trackers env (s : Sys W) :
  same_trackers (app s) (app (snd (stop W env s))).
Proof.
  destruct (_running (app s)) eqn:Hr.
  - destruct (stop_when_running env s Hr) as (q & l & g & lg & -> & _). split; reflexivity.
  - destruct (stop_when_stopped env s Hr) as (l & g & lg & -> & _). split; reflexivity.
Qed.

Lemma start_managers_app (s : Sys W) r s' :
  start_managers W C s = (r, s') -> app s' = app s /\ globals s' = globals s.
Proof.
  unfold start_managers. unfold_m. intros H. branches H. all: split; reflexivity.
Qed.

Lemma start_listener_same_trackers env (s : Sys W) :
  same_trackers (app s) (app (snd (start_listener W env s))).
Proof.
  unfold start_listener.
  destruct (EventListener.start (spawn_listener env) (_event_listener (app s))) as [[u|e] l].
  - split; reflexivity.
  - unfold bind. unfold logm at 1.
    match goal with |- context [stop W ?en ?s0] =>
      pose proof (stop_same_trackers en s0) as Hs; destruct (stop W en s0) as [[u|e'] s1] end.
    + exact Hs.
    + exact Hs.
Qed.

Lemma start_processing_same_trackers env (s : Sys W) :
  same_trackers (app s) (app (snd (start_processing W env s))).
Proof.
  unfold start_processing. unfold_m. destruct (spawn_processor env); split; reflexivity.
Qed.

Lemma start_same_trackers env (s : Sys W) :
  same_trackers (app s) (app (snd (start W C env s))).
Proof.
  unfold start, bind.
  destruct (start_managers W C s) as [[u|e] s1] eqn:E1.
  2:{ cbn [snd]. destruct (start_managers_app _ _ _ E1) as [Ha _]. rewrite Ha.
      split; reflexivity. }
  destruct (start_managers_app _ _ _ E1) as [Ha _].
  pose proof (start_listener_same_trackers env s1) as H2.
  destruct (start_listener W env s1) as [[u2|e2] s2]; cbn [snd] in H2.
  2:{ cbn [snd]. rewrite Ha in H2. exact H2. }
  pose proof (start_processing_same_trackers env s2) as H3.
  destruct H2 as [A2 K2], H3 as [A3 K3]. rewrite Ha in A2, K2.
  split; congruence.
Qed.

(** *** The coupling of the trackers *)

Lemma coupled_same (a a' : t) : same_trackers a a' -> coupled a -> coupled a'.
Proof.
  intros [Ha Hk] Hc applied known H1 H2. rewrite Ha in H1. rewrite Hk in H2. eauto.
Qed.

Lemma coupled_set_applied (target : str) (a : t) : coupled (set_applied target a).
Proof. intros applied known [= <-] [= <-]. reflexivity. Qed.

(** Every branch of the processing of one name keeps the coupling. *)
Lemma process_item_coupled name (s : Sys W) r s' :
  coupled (app s) -> process_item W C name s = (r, s') -> coupled (app s').
Proof.
  intros Hc H.
  destruct (process_item_effect C _ _ _ _ H) as (_ & _ & cs & lg & _ & _ & _ & _ & Hcase).
  destruct Hcase as [(_ & -> & _)|(_ & [->|[t ->]])].
  - exact Hc.
  - revert Hc. apply coupled_same. split; reflexivity.
  - apply coupled_set_applied.
Qed.

Lemma iteration_coupled (s : Sys W) r s' :
  coupled (app s) -> iteration W C s = (r, s') -> coupled (app s').
Proof.
  intros Hc. destruct (Queue.items (_event_queue (app s))) as [|[name|] rest] eqn:Hq.
  - unfold iteration, loop_body, bind, queue_get, Queue.get. rewrite Hq.
    intros [= <- <-]. revert Hc. apply coupled_same. split; reflexivity.
  - intros Hi.
    destruct (iteration_item_effect C s name rest r s' Hq Hi)
      as (_ & _ & cs & lg & _ & _ & _ & _ & Hcase).
    destruct Hcase as [(_ & -> & _)|(_ & [->|[t ->]])].
    + revert Hc. apply coupled_same. split; reflexivity.
    + revert Hc. apply coupled_same. split; reflexivity.
    + apply coupled_set_applied.
  - unfold iteration, loop_body, bind, queue_get, Queue.get. rewrite Hq. cbn.
    intros [= <- <-]. revert Hc. apply coupled_same. split; reflexivity.
Qed.

Lemma process_queue_coupled (n : nat) : forall s : Sys W,
  coupled (app s) -> coupled (app (snd (_process_queue W C n s))).
Proof.
  induction n as [|n IH]; intros s Hc; [exact Hc|].
  cbn [_process_queue]. destruct (_running (app s)); [|exact Hc].
  destruct (iteration W C s) as [[fl|e] s'] eqn:Hi.
  - pose proof (iteration_coupled s _ _ Hc Hi) as Hc'.
    destruct fl; first [apply IH; exact Hc' | exact Hc'].
  - exact (iteration_coupled s _ _ Hc Hi).
Qed.

Lemma exec_coupled (s : Sys W) (a : Action W) :
  coupled (app s) -> coupled (app (exec W C s a)).
Proof.
  intros Hc. destruct a as [env|env| |event name|tenv quit|f]; cbn [exec].
  - revert Hc. apply coupled_same, start_same_trackers.
  - revert Hc. apply coupled_same, stop_same_trackers.
  - apply process_queue_coupled, Hc.
  - destruct (_global_win_event_callback _ _ _ _) as [p q].
    revert Hc. apply coupled_same. split; reflexivity.
  - unfold listener_thread_runs.
    destruct (run_thread _ _ _ _) as [[l g] steps].
    revert Hc. apply coupled_same. split; reflexivity.
  - exact Hc.
Qed.

Lemma run_coupled (acts : list (Action W)) : forall s : Sys W,
  coupled (app s) -> coupled (app (run W C acts s)).
Proof.
  induction acts as [|a acts IH]; intros s Hc; [exact Hc|].
  cbn. apply IH, exec_coupled, Hc.
Qed.

(** C9 (the trackers are coupled).  From [__init__] on, after any
    sequence of starts, stops, passes of the processing thread,
    notifications, runs of the listener thread and changes behind the
    managers, [_last_known_active_guid] is the lower-case of
    [_last_applied_power_plan_identifier] whenever both are set; and the
    processing of one more name, whichever branch it takes, keeps it so. *)
Theorem C9_trackers_stay_coupled (w : W) (acts : list (Action W)) (name : str) :
  let s := run W C acts (boot W w) in
  coupled (app s) /\ coupled (app (snd (process_item W C name s))).
Proof.
  intros s.
  assert (Hs : coupled (app s)).
  { apply run_coupled. intros applied known H. discriminate H. }
  split; [exact Hs|].
  destruct (process_item W C name s) as [r s'] eqn:E.
  exact (process_item_coupled name s r s' Hs E).
Qed.

End LifecycleClaims.

(** ** The application as wired *)

Section WiredClaims.

Import EventListener PowerSwitcherApp Wiring.

Context {OS : Type} (subprocess_run : list str -> OS -> res PowerCfgManager.CompletedProcess * OS).

Lemma wired_names_return : names_return (World OS) (collaborators OS subprocess_run).
Proof. intros guid w. eexists. reflexivity. Qed.

(** C1 (a failing subscription), evaluated on the code.  The listener
    thread of a freshly started application finds [SetWinEventHook]
    returning NULL: it requests the hook, never enters its message loop
    and finishes.  [start] has nevertheless returned [True]: the running
    flag is up, the processing thread is started and the listener still
    counts as running, whether the listener thread runs after [start]
    or between its steps 4 and 5.  Nothing is stopped and no failure
    reaches the caller. *)
Theorem C1_hook_failure_goes_unreported
    (w : World OS) (fenv : StopEnv) (tid : Z) (quit : bool) :
  let env := mkStartEnv (Ret tt) (Ret tt) fenv in
  let hook_fails := mkThreadEnv (Ret tid) (Ret None) in
  let started := start (World OS) (collaborators OS subprocess_run) env (boot (World OS) w) in
  let after := listener_thread_runs (World OS) hook_fails quit (snd started) in
  snd after = [HookRequested] /\
  _listener_thread (_event_listener (app (fst after))) = Some Finished /\
  fst started = Ret true /\
  _running (app (fst after)) = true /\
  _processing_thread (app (fst after)) = Some Pending /\
  _is_running (_event_listener (app (fst after))) = true /\
  (let mid := bind (World OS) (start_managers (World OS) (collaborators OS subprocess_run))
                (fun _ => start_listener (World OS) env) (boot (World OS) w) in
   let mid' := listener_thread_runs (World OS) hook_fails quit (snd mid) in
   start_processing (World OS) env (fst mid') = (Ret true, fst after)).
Proof.
  cbv zeta.
  unfold start, start_managers, start_listener, start_processing, listener_thread_runs, boot.
  unfold_m. cbn.
  destruct (ConfigManager.load_config (config_manager w) (config_file w)) as [ok c].
  destruct ok; cbn; case_bool_decide; cbn; rewrite ?Z.eqb_refl; cbn; repeat split.
Qed.


(** C5 (fallback to the default plan).  For a process name that the
    map of a ConfigManager does not hold: when the default plan is a
    non-empty string, the resolved target is that default; when the
    default is empty or absent, the event is discarded: the pass ends
    with [continue] after a WARNING record (unless the name was the last
    processed one, which is discarded before), without any call on the
    Power Controller and with both plan trackers as they were. *)
Theorem C5_fallback_to_default name (s : Sys (World OS)) :
  ConfigManager.reachable (config_manager (world s)) ->
  ConfigManager.get_power_plan_for_process (config_manager (world s)) name = None ->
  let d := ConfigManager.get_default_power_plan (config_manager (world s)) in
  (truthy d = true ->
     exists s',
       resolve_target (World OS) (collaborators OS subprocess_run) name s = (Ret d, s') /\
       world s' = world s /\ app s' = app s)
  /\
  (truthy d = false ->
     exists s',
       process_item (World OS) (collaborators OS subprocess_run) name s = (Ret Continue, s') /\
       List.filter is_power_call (calls_since (World OS) s s') = [] /\
       world s' = world s /\
       same_trackers (app s) (app s') /\
       (_last_processed_process (app s) = Some name \/
        In (Log WARNING
              "Default power plan GUID for process '{process_name}' is empty or None from config."
              [name])
           (logged_since (World OS) s s'))).
Proof.
  intros Hreach Habsent d. subst d.
  pose proof (reachable_default_stripped _ Hreach) as Hstripped. clear Hreach.
  destruct s as [a g [cf [m dflt] pm pr] c l].
  unfold ConfigManager.default_stripped in Hstripped.
  cbn [world config_manager ConfigManager.get_default_power_plan
       ConfigManager._default_power_plan] in *.
  split.
  - intros Hd. destruct dflt as [d0|]; [|discriminate Hd].
    cbn in Hd. pose proof (Hstripped d0 eq_refl) as Hs.
    unfold resolve_target. unfold_m. cbn. rewrite Habsent. cbn.
    rewrite Hd. cbn. rewrite Hs, Hd. cbn. eexists. repeat split.
  - intros Hd.
    assert (Hcases : dflt = None \/ dflt = Some "").
    { destruct dflt as [d0|]; [right | left; reflexivity].
      cbn in Hd. rewrite (nonempty_false d0 Hd). reflexivity. }
    clear Hd Hstripped.
    unfold process_item, resolve_and_query, resolve_target. unfold_m. cbn.
    case_bool_decide as Hdup; cbn.
    + eexists. split; [reflexivity|]. unfold calls_since. cbn. rewrite drop_all.
      repeat split. left. congruence.
    + rewrite Habsent. cbn.
      destruct Hcases as [-> | ->]; cbn.
      all: eexists; split; [reflexivity|]; unfold calls_since, logged_since; cbn.
      all: rewrite <- !app_assoc, !drop_app_length; cbn.
      all: repeat split; right; auto.
Qed.

End WiredClaims.

(** ** The Power Controller and the channel *)

Section ControllerClaims.

Import PowerCfgManager.

(** C10 (empty identifier).  [switch_power_plan] with [None] or with the
    empty string returns [False] and leaves the system as it was: no
    command line is handed to [subprocess.run], whatever it would
    answer. *)
Theorem C10_empty_identifier_guard (OS : Type)
    (subprocess_run : list str -> OS -> res CompletedProcess * OS) (p : Proc OS) :
  switch_power_plan OS subprocess_run None p = (false, p) /\
  switch_power_plan OS subprocess_run (Some "") p = (false, p).
Proof. split; reflexivity. Qed.

End ControllerClaims.

Section ChannelClaims.

Import EventListener.

(** C6 (publishing never waits, and drops the newest).  With the queue
    registered, a resolved name published into a full channel is
    reported as dropped and the channel keeps exactly what it held.
    Publishing more than [k] names into a fresh channel of capacity
    [k >= 1], with no receive in between, delivers the first [k] names,
    in order, and drops every later one. *)
Theorem C6_publish_drops_the_newest (g : Global.t) (k : nat) (names : list str) :
  Global._processing_queue g = Some event_queue ->
  Forall (fun n => nonempty n = true) names ->
  (0 < k)%nat ->
  (forall q name, nonempty name = true -> Queue.full q = true ->
     _global_win_event_callback EVENT_SYSTEM_FOREGROUND (Some name) g q = (Dropped, q)) /\
  ((k < length names)%nat ->
     publish_all names g (Queue.new (Z.of_nat k)) =
       (repeat Delivered k ++ repeat Dropped (length names - k),
        Queue.mk (Z.of_nat k) (map Some (take k names)))).
Proof.
  intros Hg Hnames Hk. split.
  - intros q name Hn Hf. rewrite (callback_publishes g name q Hg Hn), Hf. reflexivity.
  - intros Hlen. unfold Queue.new.
    rewrite (publish_all_fill g k names Hg Hnames Hk [] ltac:(cbn; lia)).
    cbn [length app]. rewrite Nat.sub_0_r. rewrite Nat.min_l by lia. reflexivity.
Qed.

End ChannelClaims.

(** ** The statements at work on the desk *)

Section OnTheDesk.

Import EventListener PowerSwitcherApp.

(** The last two statements of C2 on [Desk.chrome_twice]. *)
Lemma C2_duplicates_suppressed_witness :
  (length (List.filter is_resolution
             (calls_since _ Desk.chrome_twice
                (snd (_process_queue _ Desk.managers 2 Desk.chrome_twice)))) <= 1)%nat /\
  (length (List.filter is_switch
             (calls_since _ Desk.chrome_twice
                (snd (_process_queue _ Desk.managers 2 Desk.chrome_twice)))) <= 1)%nat.
Proof.
  pose (C := Desk.managers). pose (s := Desk.chrome_twice).
  assert (H1 : (1 <= 2)%nat) by lia.
  assert (H2 : Queue.items (_event_queue (app s)) =
               repeat (Some "chrome.exe") 2 ++ [Some "unknown.exe"]) by reflexivity.
  destruct (C2_duplicates_suppressed C "chrome.exe" [Some "unknown.exe"] 2 s H1 H2)
    as (_ & _ & _ & _ & _ & Hres & Hsw).
  split; [exact Hres | exact Hsw].
Defined.

(** [chrome.exe] comes to the front while its plan is active, reported
    by the system in upper case. *)
Lemma C3_no_switch_when_active_witness :
  exists s2,
    process_item _ Desk.managers "chrome.exe" Desk.already_fast = (Ret Continue, s2) /\
    List.filter is_switch (calls_since _ Desk.already_fast s2) = [] /\
    _last_applied_power_plan_identifier (app s2) = Some Desk.GUID_HIGH_PERFORMANCE.
Proof.
  pose (C := Desk.managers). pose (s := Desk.already_fast).
  pose proof (wired_names_return Desk.subprocess_run : names_return _ C) as Hn.
  assert (Hrq : resolve_and_query _ C "chrome.exe" s =
                (Ret (Some (Desk.GUID_HIGH_PERFORMANCE, "8C5E7FDA-E8BF-4A96-9A85-A6E23A8C635C")),
                 snd (resolve_and_query _ C "chrome.exe" s))) by (vm_compute; reflexivity).
  assert (Heq : lower "8C5E7FDA-E8BF-4A96-9A85-A6E23A8C635C" = lower Desk.GUID_HIGH_PERFORMANCE)
    by reflexivity.
  destruct (C3_no_switch_when_active C "chrome.exe" _ _ s _ Hn Hrq Heq)
    as (s2 & Hp & Hsw & _ & Happ).
  exists s2. split; [exact Hp|]. split; [exact Hsw|]. rewrite Happ. reflexivity.
Defined.

(** [chrome.exe] comes to the front while the power saver is active and
    the switch is allowed. *)
Lemma C4_switch_on_mismatch_witness :
  exists s2,
    process_item _ Desk.managers "chrome.exe" Desk.saving = (Ret FallThrough, s2) /\
    List.filter is_switch (calls_since _ Desk.saving s2) =
      [Call_switch_power_plan Desk.GUID_HIGH_PERFORMANCE] /\
    _last_applied_power_plan_identifier (app s2) = Some Desk.GUID_HIGH_PERFORMANCE /\
    _last_known_active_guid (app s2) = Some (lower Desk.GUID_HIGH_PERFORMANCE).
Proof.
  pose (C := Desk.managers). pose (s := Desk.saving).
  pose proof (wired_names_return Desk.subprocess_run : names_return _ C) as Hn.
  pose (s1 := snd (resolve_and_query _ C "chrome.exe" s)).
  assert (Hrq : resolve_and_query _ C "chrome.exe" s =
                (Ret (Some (Desk.GUID_HIGH_PERFORMANCE, Desk.GUID_POWER_SAVER)), s1))
    by (vm_compute; reflexivity).
  assert (Hne : lower Desk.GUID_POWER_SAVER <> lower Desk.GUID_HIGH_PERFORMANCE)
    by (vm_compute; discriminate).
  assert (Hsw : pm_switch_power_plan _ C Desk.GUID_HIGH_PERFORMANCE (world s1) =
                (Ret true, snd (pm_switch_power_plan _ C Desk.GUID_HIGH_PERFORMANCE (world s1))))
    by (vm_compute; reflexivity).
  destruct (C4_switch_on_mismatch C "chrome.exe" _ _ s s1 _ _ Hn Hrq Hne Hsw)
    as (s2 & Hp & Hcalls & _ & Happ & _).
  exists s2. split; [exact Hp|]. split; [exact Hcalls|]. rewrite Happ. split; reflexivity.
Defined.

(** A program without a mapping: the balanced plan, the default of the
    desk, is the target. *)
Lemma C5_fallback_to_default_witness :
  exists s',
    resolve_target _ Desk.managers "unknown.exe" Desk.saving =
      (Ret (Some ConfigManager.GUID_BALANCED), s').
Proof.
  pose (s := Desk.saving).
  assert (Hreach : ConfigManager.reachable (Wiring.config_manager (world s))).
  { apply ConfigManager.reach_load_config, ConfigManager.reach_init. }
  assert (Habsent : ConfigManager.get_power_plan_for_process
                      (Wiring.config_manager (world s)) "unknown.exe" = None)
    by (vm_compute; reflexivity).
  destruct (C5_fallback_to_default Desk.subprocess_run "unknown.exe" s Hreach Habsent)
    as [Hsome _].
  destruct (Hsome eq_refl) as (s' & Hr & _).
  exists s'. exact Hr.
Defined.

(** Scenario D of the specification: capacity 2, three publications. *)
Lemma C6_publish_drops_the_newest_witness :
  publish_all ["a.exe"; "b.exe"; "c.exe"] Desk.registered (Queue.new 2) =
    ([Delivered; Delivered; Dropped], Queue.mk 2 [Some "a.exe"; Some "b.exe"]).
Proof.
  pose (g := Desk.registered).
  assert (Hg : Global._processing_queue g = Some event_queue) by reflexivity.
  assert (Hnames : Forall (fun n => nonempty n = true) ["a.exe"; "b.exe"; "c.exe"])
    by (repeat constructor).
  assert (Hk : (0 < 2)%nat) by lia.
  destruct (C6_publish_drops_the_newest g 2 ["a.exe"; "b.exe"; "c.exe"] Hg Hnames Hk)
    as [_ Hbatch].
  apply Hbatch. cbn. lia.
Defined.

(** An item whose plan lookup raises, followed by another one. *)
Lemma C8_errors_stay_in_the_pass_witness :
  exists caught,
    iteration unit Desk.faulty Desk.two_items = (Ret FallThrough, caught) /\
    Queue.items (_event_queue (app caught)) = [Some "b.exe"] /\
    _process_queue unit Desk.faulty 2 Desk.two_items = _process_queue unit Desk.faulty 1 caught.
Proof.
  pose (s := Desk.two_items).
  pose (e := OtherException "'int' object has no attribute 'lower'").
  assert (Hq : Queue.items (_event_queue (app s)) = Some "a.exe" :: [Some "b.exe"])
    by reflexivity.
  assert (Hbody : loop_body unit Desk.faulty s = (Raise e, snd (loop_body unit Desk.faulty s)))
    by reflexivity.
  assert (He : unexpected e) by discriminate.
  destruct (C8_errors_stay_in_the_pass Desk.faulty "a.exe" [Some "b.exe"] e s _ Hq Hbody He)
    as (Hi & Hrest & Hgo & _).
  eexists. split; [exact Hi|]. split; [exact Hrest|]. apply Hgo. reflexivity.
Defined.

(** The scenarios of the specification. *)

Example scenario_A :
  List.filter is_switch
    (calls (snd (_process_queue _ Desk.managers 1
                   (Desk.waiting ["chrome.exe"] (Desk.world Desk.GUID_POWER_SAVER true)))))
  = [Call_switch_power_plan Desk.GUID_HIGH_PERFORMANCE].
Proof. vm_compute. reflexivity. Qed.

Example scenario_B :
  List.filter is_switch
    (calls (snd (_process_queue _ Desk.managers 2
                   (Desk.waiting ["chrome.exe"; "chrome.exe"]
                                 (Desk.world Desk.GUID_POWER_SAVER true)))))
  = [Call_switch_power_plan Desk.GUID_HIGH_PERFORMANCE].
Proof. vm_compute. reflexivity. Qed.

Example scenario_C :
  List.filter is_switch
    (calls (snd (_process_queue _ Desk.managers 1
                   (Desk.waiting ["unknown.exe"] (Desk.world Desk.GUID_POWER_SAVER true)))))
  = [Call_switch_power_plan ConfigManager.GUID_BALANCED].
Proof. vm_compute. reflexivity. Qed.

Example scenario_E :
  List.filter is_switch
    (calls (snd (_process_queue _ Desk.managers 1
                   (Desk.waiting ["chrome.exe"]
                                 (Desk.world "8C5E7FDA-E8BF-4A96-9A85-A6E23A8C635C" true)))))
  = [].
Proof. vm_compute. reflexivity. Qed.

(** The duplicate check compares the names as they are: a change of
    case makes a new name, which is resolved again. *)
Example dedup_is_case_sensitive :
  List.filter is_resolution
    (calls (snd (_process_queue _ Desk.managers 2
                   (Desk.waiting ["chrome.exe"; "Chrome.exe"]
                                 (Desk.world Desk.GUID_POWER_SAVER true)))))
  = [Call_get_power_plan_for_process "chrome.exe";
     Call_get_power_plan_for_process "Chrome.exe"].
Proof. vm_compute. reflexivity. Qed.

(** A refused switch leaves the trackers unset, and the repeated event
    does not try again. *)
Example refused_switch_is_not_retried :
  let s := snd (_process_queue _ Desk.managers 2
                  (Desk.waiting ["chrome.exe"; "chrome.exe"]
                                (Desk.world Desk.GUID_POWER_SAVER false))) in
  List.filter is_switch (calls s) = [Call_switch_power_plan Desk.GUID_HIGH_PERFORMANCE] /\
  _last_applied_power_plan_identifier (app s) = None /\
  _last_known_active_guid (app s) = None.
Proof. vm_compute. repeat split. Qed.

End OnTheDesk.

(** * Further properties of the code

    The configuration and the power controller on their own, the
    listener thread, start and stop, the counting of calls, process
    names and the logging set-up. *)

(** ** Case and white space *)

Section CaseAndSpace.

(** Splits a character into its eight bits, so that a statement about
    every character is checked on each of the 256. *)
Ltac each_char c := destruct c as [[] [] [] [] [] [] [] []]; vm_compute; try reflexivity; try discriminate.

Lemma isspace_lower_char (c : ascii) : isspace (lower_char c) = isspace c.
Proof. each_char c. Qed.

Lemma lower_char_idem (c : ascii) : lower_char (lower_char c) = lower_char c.
Proof. each_char c. Qed.

Lemma nonempty_lower (s : str) : nonempty (lower s) = nonempty s.
Proof. destruct s; reflexivity. Qed.

Lemma lstrip_lower (s : str) : lstrip (lower s) = lower (lstrip s).
Proof.
  induction s as [|c r IH]; [reflexivity|].
  cbn. rewrite isspace_lower_char. destruct (isspace c); [exact IH | reflexivity].
Qed.

Lemma rstrip_lower (s : str) : rstrip (lower s) = lower (rstrip s).
Proof.
  induction s as [|c r IH]; [reflexivity|].
  cbn. rewrite IH, isspace_lower_char.
  destruct (rstrip r); cbn; [destruct (isspace c)|]; reflexivity.
Qed.

Lemma strip_lower (s : str) : strip (lower s) = lower (strip s).
Proof. unfold strip. rewrite lstrip_lower, rstrip_lower. reflexivity. Qed.

Lemma nonempty_strip (s : str) : nonempty (strip s) = true -> nonempty s = true.
Proof. destruct s; [discriminate | reflexivity]. Qed.

End CaseAndSpace.

(** ** The process map of the configuration *)

Section ProcessMap.

Import ConfigManager.

(** The key under which an entry is stored, and under which a name is
    looked up. *)
Lemma lookup_key (name : str) : strip (lower name) = lower (strip name).
Proof. apply strip_lower. Qed.

Lemma update_entry_other (m : gmap string str) (kv : str * str) (x : str) :
  lower (strip (fst kv)) <> x -> update_entry m kv !! x = m !! x.
Proof.
  intros Hne. unfold update_entry.
  destruct (nonempty (strip (fst kv)) && nonempty (strip (snd kv))); [|reflexivity].
  apply lookup_insert_ne. exact Hne.
Qed.

Lemma fold_update_other (later : list (str * str)) (x : str) :
  Forall (fun kv => lower (strip (fst kv)) <> x) later ->
  forall m : gmap string str, fold_left update_entry later m !! x = m !! x.
Proof.
  induction 1 as [|kv later Hkv _ IH]; intros m; [reflexivity|].
  cbn. rewrite IH. apply update_entry_other, Hkv.
Qed.

Lemma fold_update_hit (entries later : list (str * str)) (k v : str) (m : gmap string str) :
  nonempty (strip k) = true -> nonempty (strip v) = true ->
  Forall (fun kv => lower (strip (fst kv)) <> lower (strip k)) later ->
  fold_left update_entry (entries ++ (k, v) :: later) m !! lower (strip k) = Some (strip v).
Proof.
  intros Hk Hv Hlater. rewrite fold_left_app. cbn [fold_left].
  rewrite (fold_update_other later _ Hlater).
  unfold update_entry. cbn [fst snd]. rewrite Hk, Hv. cbn.
  apply lookup_insert_eq.
Qed.

Lemma build_map_is_fold (entries : list (str * str)) :
  build_map entries = fold_left update_entry entries ∅.
Proof. reflexivity. Qed.

Lemma get_of_key (self : t) (name k : str) :
  nonempty (strip k) = true ->
  lower (strip name) = lower (strip k) ->
  get_power_plan_for_process self name = _app_power_map self !! lower (strip k).
Proof.
  intros Hk Heq. unfold get_power_plan_for_process.
  assert (Hn : nonempty name = true).
  { apply nonempty_strip. rewrite <- nonempty_lower, Heq, nonempty_lower. exact Hk. }
  rewrite Hn. cbn [negb]. rewrite lookup_key, Heq. reflexivity.
Qed.

(** X1 (an updated map is read back).  After [update_app_power_map],
    the entry that is the last one for its key, with a process name and
    a plan that are not blank, is what [get_power_plan_for_process]
    returns for every spelling of the name that differs in case or in
    surrounding white space only: the plan, stripped. *)
Theorem update_app_power_map_then_lookup
    (self : t) (entries later : list (str * str)) (k v name : str) :
  nonempty (strip k) = true ->
  nonempty (strip v) = true ->
  Forall (fun kv => lower (strip (fst kv)) <> lower (strip k)) later ->
  lower (strip name) = lower (strip k) ->
  get_power_plan_for_process
    (update_app_power_map self (entries ++ (k, v) :: later)) name = Some (strip v).
Proof.
  intros Hk Hv Hlater Hname.
  rewrite (get_of_key _ name k Hk Hname). cbn [update_app_power_map _app_power_map].
  apply fold_update_hit; assumption.
Qed.

(** X2 (a loaded map is read back).  [load_config] on a file whose
    process map holds such an entry succeeds, whatever the [General]
    section is, and the lookup returns the stripped plan of the entry. *)
Theorem load_config_then_lookup
    (self : t) (g : GeneralSection) (entries later : list (str * str)) (k v name : str) :
  nonempty (strip k) = true ->
  nonempty (strip v) = true ->
  Forall (fun kv => lower (strip (fst kv)) <> lower (strip k)) later ->
  lower (strip name) = lower (strip k) ->
  load_config self (Parsed g (MapItems (entries ++ (k, v) :: later))) =
    (true, snd (load_config self (Parsed g (MapItems (entries ++ (k, v) :: later))))) /\
  get_power_plan_for_process
    (snd (load_config self (Parsed g (MapItems (entries ++ (k, v) :: later))))) name
  = Some (strip v).
Proof.
  intros Hk Hv Hlater Hname. split; [reflexivity|].
  rewrite (get_of_key _ name k Hk Hname). cbn [load_config snd _app_power_map].
  rewrite build_map_is_fold. apply fold_update_hit; assumption.
Qed.

(** *** What the map holds *)

Lemma update_entry_clean (m : gmap string str) (kv : str * str) :
  clean m -> clean (update_entry m kv).
Proof.
  intros Hm. unfold update_entry.
  destruct (nonempty (strip (fst kv)) && nonempty (strip (snd kv))) eqn:E; [|exact Hm].
  apply andb_true_iff in E as [_ Hv].
  intros k v. rewrite lookup_insert. case_decide.
  - intros [= <-]. split; [exact Hv | apply strip_idem].
  - apply Hm.
Qed.

Lemma fold_update_clean (entries : list (str * str)) : forall m : gmap string str,
  clean m -> clean (fold_left update_entry entries m).
Proof.
  induction entries as [|kv entries IH]; intros m Hm; [exact Hm|].
  cbn. apply IH, update_entry_clean, Hm.
Qed.

Lemma empty_clean : clean ∅.
Proof. intros k v H. rewrite lookup_empty in H. discriminate. Qed.

Lemma reachable_clean (self : t) : reachable self -> clean (_app_power_map self).
Proof.
  induction 1 as [|self f _ IH|self l _ IH|self guid _ IH].
  - apply empty_clean.
  - destruct f as [| | |g m]; cbn; try exact IH; try apply empty_clean.
    destruct m as [| |entries]; try apply empty_clean.
    rewrite build_map_is_fold. apply fold_update_clean, empty_clean.
  - cbn. apply fold_update_clean, empty_clean.
  - destruct guid; exact IH.
Qed.

(** X3 (the configuration hands out clean plans).  Whatever sequence
    of [load_config], [update_app_power_map] and
    [update_general_settings] a ConfigManager went through, a plan that
    [get_power_plan_for_process] returns is a non-empty string without
    surrounding white space, and so is left as it is by the [strip] of
    the switch engine. *)
Theorem config_hands_out_clean_plans (self : t) (name v : str) :
  reachable self ->
  get_power_plan_for_process self name = Some v ->
  nonempty v = true /\ strip v = v /\ nonempty name = true.
Proof.
  intros Hreach Hget. unfold get_power_plan_for_process in Hget.
  destruct (nonempty name); [|discriminate]. cbn [negb] in Hget.
  destruct (reachable_clean _ Hreach _ _ Hget) as [Hn Hs]. auto.
Qed.

End ProcessMap.

(** ** GUIDs in the output of powercfg *)

Section GuidFacts.

Import PowerCfgManager.

Lemma append_cons (x : ascii) (a b : str) : String x a +:+ b = String x (a +:+ b).
Proof. reflexivity. Qed.

Lemma dash_append (a : str) : "-" +:+ a = String "-" a.
Proof. reflexivity. Qed.

Lemma append_assoc (a b c : str) : (a +:+ b) +:+ c = a +:+ (b +:+ c).
Proof. induction a as [|x a IH]; [reflexivity|]. rewrite !append_cons, IH. reflexivity. Qed.

Lemma length_append (a b : str) :
  String.length (a +:+ b) = (String.length a + String.length b)%nat.
Proof. induction a as [|x a IH]; [reflexivity|]. rewrite append_cons. cbn. rewrite IH. reflexivity. Qed.

Lemma append_empty_r (a : str) : a +:+ "" = a.
Proof. induction a as [|x a IH]; [reflexivity|]. rewrite append_cons, IH. reflexivity. Qed.

Lemma is_hex_not_space (c : ascii) : is_hex c = true -> isspace c = false.
Proof. destruct c as [[] [] [] [] [] [] [] []]; vm_compute; congruence. Qed.

Lemma dash_only (c : ascii) : Ascii.eqb (lower_char c) (lower_char "-") = true -> c = "-"%char.
Proof. destruct c as [[] [] [] [] [] [] [] []]; vm_compute; congruence. Qed.

Lemma take_dash (s r : str) : take_literal "-" s = Some r -> s = String "-" r.
Proof.
  destruct s as [|c s]; cbn; [discriminate|].
  destruct (Ascii.eqb (lower_char c) (lower_char "-")) eqn:E; [|discriminate].
  intros [= <-]. rewrite (dash_only c E). reflexivity.
Qed.

(** [n] hexadecimal digits taken at the position [i] of a GUID where no
    dash is due. *)
Lemma take_hex_shaped (n : nat) : forall (i : nat) (s d r : str),
  take_hex n s = Some (d, r) ->
  (forall j c, (i <= j < i + n)%nat -> guid_char_ok j c = is_hex c) ->
  s = d +:+ r /\ String.length d = n /\ all_chars is_hex d = true /\
  forall t, shaped_from i (d +:+ t) = shaped_from (i + n) t.
Proof.
  induction n as [|n IH]; intros i s d r H Hpos.
  - cbn in H. injection H as <- <-. cbn. rewrite Nat.add_0_r. auto.
  - cbn in H. destruct s as [|c s]; [discriminate|].
    destruct (is_hex c) eqn:Hc; [|discriminate].
    destruct (take_hex n s) as [[d' r']|] eqn:E; [|discriminate].
    injection H as <- <-.
    destruct (IH (S i) s d' r' E) as (-> & Hlen & Hall & Hsh).
    { intros j c' Hj. apply Hpos. lia. }
    cbn [String.length all_chars]. rewrite Hlen, Hc, Hall.
    do 3 (split; [reflexivity|]).
    intros t. rewrite append_cons. cbn [shaped_from].
    rewrite (Hpos i c) by lia. rewrite Hc, Hsh. cbn [andb].
    f_equal. lia.
Qed.

Ltac positions :=
  let j := fresh "j" in let c := fresh "c" in let Hj := fresh "Hj" in
  intros j c Hj; unfold guid_char_ok;
  do 36 (destruct j as [|j]; [reflexivity || (exfalso; lia)|]);
  exfalso; lia.

Lemma shaped_dash (i : nat) (t : str) :
  (Nat.eqb i 8 || Nat.eqb i 13 || Nat.eqb i 18 || Nat.eqb i 23)%bool = true ->
  shaped_from i (String "-" t) = shaped_from (S i) t.
Proof. intros H. cbn [shaped_from]. unfold guid_char_ok. rewrite H. reflexivity. Qed.

(** What [take_guid] takes is a GUID, and it stands at the head. *)
Lemma take_guid_sound (s g rest : str) :
  take_guid s = Some (g, rest) -> is_guid g = true /\ s = g +:+ rest.
Proof.
  unfold take_guid. intros H.
  destruct (take_hex 8 s) as [[g1 s1]|] eqn:E1; [|discriminate].
  destruct (take_literal "-" s1) as [s1'|] eqn:D1; [|discriminate].
  destruct (take_hex 4 s1') as [[g2 s2]|] eqn:E2; [|discriminate].
  destruct (take_literal "-" s2) as [s2'|] eqn:D2; [|discriminate].
  destruct (take_hex 4 s2') as [[g3 s3]|] eqn:E3; [|discriminate].
  destruct (take_literal "-" s3) as [s3'|] eqn:D3; [|discriminate].
  destruct (take_hex 4 s3') as [[g4 s4]|] eqn:E4; [|discriminate].
  destruct (take_literal "-" s4) as [s4'|] eqn:D4; [|discriminate].
  destruct (take_hex 12 s4') as [[g5 s5]|] eqn:E5; [|discriminate].
  injection H as <- <-.
  apply take_dash in D1, D2, D3, D4. subst s1 s2 s3 s4.
  destruct (take_hex_shaped 8 0 _ _ _ E1 ltac:(positions)) as (-> & L1 & _ & S1).
  destruct (take_hex_shaped 4 9 _ _ _ E2 ltac:(positions)) as (-> & L2 & _ & S2).
  destruct (take_hex_shaped 4 14 _ _ _ E3 ltac:(positions)) as (-> & L3 & _ & S3).
  destruct (take_hex_shaped 4 19 _ _ _ E4 ltac:(positions)) as (-> & L4 & _ & S4).
  destruct (take_hex_shaped 12 24 _ _ _ E5 ltac:(positions)) as (-> & L5 & _ & S5).
  split.
  - unfold is_guid. apply andb_true_iff. split.
    + rewrite !length_append, L1, L2, L3, L4, L5. reflexivity.
    + rewrite S1, dash_append. cbn [Nat.add]. rewrite (shaped_dash 8) by reflexivity.
      rewrite S2, dash_append. cbn [Nat.add]. rewrite (shaped_dash 13) by reflexivity.
      rewrite S3, dash_append. cbn [Nat.add]. rewrite (shaped_dash 18) by reflexivity.
      rewrite S4, dash_append. cbn [Nat.add]. rewrite (shaped_dash 23) by reflexivity.
      rewrite <- (append_empty_r g5), S5. reflexivity.
  - rewrite !append_assoc. reflexivity.
Qed.


Lemma match_here_take_guid (s : str) :
  match_here s =
    match take_literal "GUID:" s with
    | None => None
    | Some s0 =>
        match take_guid (lstrip s0) with
        | Some (g, _) => Some g
        | None => None
        end
    end.
Proof.
  unfold match_here, take_guid.
  destruct (take_literal "GUID:" s) as [s0|]; [|reflexivity].
  repeat (match goal with
          | |- context [match ?x with _ => _ end] =>
              match x with
              | take_hex _ _ => destruct x as [[? ?]|]
              | take_literal _ _ => destruct x
              end
          end; try reflexivity).
Qed.

(** Whatever [GUID_PARSE_REGEX] finds has the shape of a GUID. *)
Lemma search_sound (s g : str) : GUID_PARSE_REGEX_search s = Some g -> is_guid g = true.
Proof.
  induction s as [|c r IH]; cbn [GUID_PARSE_REGEX_search]; rewrite match_here_take_guid.
  - cbn. discriminate.
  - destruct (take_literal "GUID:" (String c r)) as [s0|]; [|exact IH].
    destruct (take_guid (lstrip s0)) as [[g' rest]|] eqn:E; [|exact IH].
    intros [= <-]. exact (proj1 (take_guid_sound _ _ _ E)).
Qed.

(** *** A GUID has no white space in it *)

Lemma guid_char_not_space (i : nat) (c : ascii) :
  guid_char_ok i c = true -> isspace c = false.
Proof.
  unfold guid_char_ok.
  destruct (Nat.eqb i 8 || Nat.eqb i 13 || Nat.eqb i 18 || Nat.eqb i 23)%bool.
  - intros H. apply Ascii.eqb_eq in H. subst c. reflexivity.
  - apply is_hex_not_space.
Qed.

Lemma shaped_no_space (s : str) : forall i,
  shaped_from i s = true -> all_chars (fun c => negb (isspace c)) s = true.
Proof.
  induction s as [|c r IH]; intros i H; [reflexivity|].
  cbn in H. apply andb_true_iff in H as [Hc Hr].
  cbn. rewrite (guid_char_not_space i c Hc). cbn. exact (IH _ Hr).
Qed.

Lemma rstrip_no_space (s : str) :
  all_chars (fun c => negb (isspace c)) s = true -> rstrip s = s.
Proof.
  induction s as [|c r IH]; [reflexivity|].
  cbn. intros H. apply andb_true_iff in H as [Hc Hr].
  rewrite (IH Hr). apply negb_true_iff in Hc. rewrite Hc. destruct r; reflexivity.
Qed.

Lemma strip_no_space (s : str) :
  all_chars (fun c => negb (isspace c)) s = true -> strip s = s.
Proof.
  intros H. unfold strip.
  assert (Hl : lstrip s = s).
  { destruct s as [|c r]; [reflexivity|]. cbn in H |- *.
    apply andb_true_iff in H as [Hc _]. apply negb_true_iff in Hc. rewrite Hc. reflexivity. }
  rewrite Hl. apply rstrip_no_space, H.
Qed.

Lemma is_guid_stripped (g : str) : is_guid g = true -> strip g = g /\ nonempty g = true.
Proof.
  unfold is_guid. intros H. apply andb_true_iff in H as [Hlen Hsh]. split.
  - apply strip_no_space, (shaped_no_space g 0), Hsh.
  - destruct g; [discriminate Hlen | reflexivity].
Qed.

(** *** Reading a GUID back *)

Lemma append_nil_l (a : str) : "" +:+ a = a.
Proof. reflexivity. Qed.

Lemma take_guid_complete (g rest : str) :
  is_guid g = true -> take_guid (g +:+ rest) = Some (g, rest).
Proof.
  unfold is_guid. intros H. apply andb_true_iff in H as [Hlen Hsh].
  do 36 (destruct g as [|? g]; [discriminate Hlen|]).
  destruct g; [|discriminate Hlen]. clear Hlen.
  cbn in Hsh.
  repeat match type of Hsh with
         | (_ && _)%bool = true => let H := fresh "H" in apply andb_true_iff in Hsh as [H Hsh]
         end.
  repeat match goal with
         | H : Ascii.eqb _ _ = true |- _ => apply Ascii.eqb_eq in H; subst
         end.
  rewrite !append_cons, append_nil_l. unfold take_guid.
  repeat first
    [ progress cbn [take_hex take_literal]
    | match goal with H : is_hex _ = true |- _ => rewrite H; clear H end
    | progress change (Ascii.eqb (lower_char "-") (lower_char "-")) with true ].
  reflexivity.
Qed.

Lemma match_here_not_g (c : ascii) (r : str) : not_g c = true -> match_here (String c r) = None.
Proof.
  intros H. rewrite match_here_take_guid. cbn [take_literal].
  unfold not_g in H. apply negb_true_iff in H.
  change (lower_char "G") with "g"%char. rewrite H. reflexivity.
Qed.

Lemma search_skips (prefix s : str) :
  all_chars not_g prefix = true ->
  GUID_PARSE_REGEX_search (prefix +:+ s) = GUID_PARSE_REGEX_search s.
Proof.
  induction prefix as [|c p IH]; intros H; [reflexivity|].
  cbn in H. apply andb_true_iff in H as [Hc Hp].
  rewrite append_cons. cbn [GUID_PARSE_REGEX_search].
  rewrite (match_here_not_g c _ Hc). exact (IH Hp).
Qed.

Lemma lstrip_spaces (ws s : str) :
  all_chars isspace ws = true -> lstrip (ws +:+ s) = lstrip s.
Proof.
  induction ws as [|c ws IH]; intros H; [reflexivity|].
  cbn in H. apply andb_true_iff in H as [Hc Hws].
  rewrite append_cons. cbn [lstrip]. rewrite Hc. exact (IH Hws).
Qed.

Lemma lstrip_guid (g rest : str) : is_guid g = true -> lstrip (g +:+ rest) = g +:+ rest.
Proof.
  unfold is_guid. intros H. apply andb_true_iff in H as [Hlen Hsh].
  destruct g as [|c g]; [discriminate Hlen|].
  cbn in Hsh. apply andb_true_iff in Hsh as [Hc _].
  rewrite append_cons. cbn [lstrip]. rewrite (guid_char_not_space 0 c Hc). reflexivity.
Qed.

(** The answer of [powercfg /getactivescheme] read back: before the
    word GUID no letter G, after its colon white space and the GUID. *)
Lemma search_complete (prefix ws g rest : str) :
  all_chars not_g prefix = true ->
  all_chars isspace ws = true ->
  is_guid g = true ->
  GUID_PARSE_REGEX_search (prefix +:+ "GUID:" +:+ ws +:+ g +:+ rest) = Some g.
Proof.
  intros Hp Hws Hg. rewrite (search_skips prefix _ Hp).
  assert (Hm : match_here ("GUID:" +:+ ws +:+ g +:+ rest) = Some g).
  { rewrite match_here_take_guid.
    change (take_literal "GUID:" ("GUID:" +:+ ws +:+ g +:+ rest)) with (Some (ws +:+ g +:+ rest)).
    cbv beta iota. rewrite (lstrip_spaces ws _ Hws), (lstrip_guid g rest Hg), (take_guid_complete g rest Hg).
    reflexivity. }
  change ("GUID:" +:+ ws +:+ g +:+ rest) with (String "G" ("UID:" +:+ ws +:+ g +:+ rest)) in *.
  cbn [GUID_PARSE_REGEX_search]. rewrite Hm. reflexivity.
Qed.

End GuidFacts.

(** ** The Power Controller *)

Section PowerControllerFacts.

Import PowerCfgManager.

Context {OS : Type} (subprocess_run : list str -> OS -> res CompletedProcess * OS).

Lemma get_active_scheme_guid_issues (p : Proc OS) :
  issued (snd (get_active_scheme_guid OS subprocess_run p)) =
    issued p ++ [[POWERCARD_COMMAND; GET_ACTIVE_SCHEME_ARG]].
Proof.
  unfold get_active_scheme_guid, run.
  destruct (subprocess_run _ (os p)) as [[result|e] os']; [|reflexivity].
  destruct (returncode result =? 0)%Z; [|reflexivity].
  destruct (GUID_PARSE_REGEX_search (stdout result)); reflexivity.
Qed.

Lemma get_active_scheme_guid_shape (p : Proc OS) (g : str) :
  fst (get_active_scheme_guid OS subprocess_run p) = Some g ->
  is_guid g = true.
Proof.
  unfold get_active_scheme_guid, run.
  destruct (subprocess_run _ (os p)) as [[result|e] os']; [|discriminate].
  destruct (returncode result =? 0)%Z; [|discriminate].
  destruct (GUID_PARSE_REGEX_search (stdout result)) as [g0|] eqn:Es; [|discriminate].
  intros [= <-]. pose proof (search_sound _ _ Es) as Hg.
  rewrite (proj1 (is_guid_stripped g0 Hg)). exact Hg.
Qed.

(** X4 (the active scheme is a GUID or nothing).  Whatever the system
    answers, [get_active_scheme_guid] hands exactly one command line to
    [subprocess.run], [powercfg /getactivescheme], and what it returns
    is [None] or a string with the shape of a GUID: never empty, never
    with white space around it. *)
Theorem active_scheme_is_a_guid (p : Proc OS) :
  let r := get_active_scheme_guid OS subprocess_run p in
  issued (snd r) = issued p ++ [[POWERCARD_COMMAND; GET_ACTIVE_SCHEME_ARG]] /\
  match fst r with
  | Some g => is_guid g = true /\ nonempty g = true /\ strip g = g
  | None => True
  end.
Proof.
  cbv zeta. split; [apply get_active_scheme_guid_issues|].
  destruct (fst (get_active_scheme_guid OS subprocess_run p)) as [g|] eqn:E; [|exact I].
  pose proof (get_active_scheme_guid_shape p g E) as Hg.
  destruct (is_guid_stripped g Hg) as [Hs Hn]. auto.
Qed.

(** X5 (the answer of the system is read back).  When
    [powercfg /getactivescheme] exits with 0 and prints a line in which
    [GUID:], white space and a GUID follow a text without the letter g
    (as [Power Scheme ] is), the GUID printed is what
    [get_active_scheme_guid] returns, whatever follows it. *)
Theorem active_scheme_read_back (p : Proc OS) (os' : OS) (prefix ws g rest err : str) :
  subprocess_run [POWERCARD_COMMAND; GET_ACTIVE_SCHEME_ARG] (os p) =
    (Ret (Completed 0 (prefix +:+ "GUID:" +:+ ws +:+ g +:+ rest) err), os') ->
  all_chars not_g prefix = true ->
  all_chars isspace ws = true ->
  is_guid g = true ->
  get_active_scheme_guid OS subprocess_run p =
    (Some g, mkProc os' (issued p ++ [[POWERCARD_COMMAND; GET_ACTIVE_SCHEME_ARG]])).
Proof.
  intros Hrun Hp Hws Hg. unfold get_active_scheme_guid, run. rewrite Hrun.
  cbn [returncode stdout Z.eqb].
  rewrite (search_complete prefix ws g rest Hp Hws Hg).
  rewrite (proj1 (is_guid_stripped g Hg)). reflexivity.
Qed.

End PowerControllerFacts.

(** ** The list of power schemes *)

Section SchemeList.

Import PowerCfgManager.

Lemma take_name_complete (n rest : str) :
  all_chars not_paren_or_lf n = true -> take_name (n +:+ ")" +:+ rest) = Some n.
Proof.
  induction n as [|c n IH]; intros H; [reflexivity|].
  cbn in H. apply andb_true_iff in H as [Hc Hn].
  unfold not_paren_or_lf in Hc. apply andb_true_iff in Hc as [Hp Hl].
  apply negb_true_iff in Hp, Hl.
  rewrite append_cons. cbn [take_name]. rewrite Hp, Hl, (IH Hn). reflexivity.
Qed.

Lemma list_match_here_sound (s g n : str) :
  list_match_here s = Some (g, n) -> is_guid g = true.
Proof.
  unfold list_match_here.
  destruct (take_literal "GUID:" s) as [s0|]; [|discriminate].
  destruct (take_guid (lstrip s0)) as [[g' s1]|] eqn:E; [|discriminate].
  destruct s1 as [|c s1]; [discriminate|].
  destruct (isspace c); [|discriminate].
  destruct (lstrip (String c s1)) as [|p s2]; [discriminate|].
  destruct (Ascii.eqb p "("); [|discriminate].
  destruct (take_name s2); [|discriminate].
  intros [= <- <-]. exact (proj1 (take_guid_sound _ _ _ E)).
Qed.

Lemma list_search_sound (s g n : str) :
  POWER_PLAN_LIST_REGEX_search s = Some (g, n) -> is_guid g = true.
Proof.
  induction s as [|c r IH]; cbn [POWER_PLAN_LIST_REGEX_search].
  - cbn. discriminate.
  - destruct (list_match_here (String c r)) as [[g' n']|] eqn:E; [|exact IH].
    intros [= <- <-]. exact (list_match_here_sound _ _ _ E).
Qed.

Lemma list_match_here_not_g (c : ascii) (r : str) :
  not_g c = true -> list_match_here (String c r) = None.
Proof.
  intros H. unfold list_match_here. cbn [take_literal].
  unfold not_g in H. apply negb_true_iff in H.
  change (lower_char "G") with "g"%char. rewrite H. reflexivity.
Qed.

Lemma list_search_skips (prefix s : str) :
  all_chars not_g prefix = true ->
  POWER_PLAN_LIST_REGEX_search (prefix +:+ s) = POWER_PLAN_LIST_REGEX_search s.
Proof.
  induction prefix as [|c p IH]; intros H; [reflexivity|].
  cbn in H. apply andb_true_iff in H as [Hc Hp].
  rewrite append_cons. cbn [POWER_PLAN_LIST_REGEX_search].
  rewrite (list_match_here_not_g c _ Hc). exact (IH Hp).
Qed.

(** A line of [powercfg /list] read back. *)
Lemma list_search_complete (prefix ws g gap name rest : str) :
  all_chars not_g prefix = true ->
  all_chars isspace ws = true ->
  is_guid g = true ->
  nonempty gap = true -> all_chars isspace gap = true ->
  all_chars not_paren_or_lf name = true ->
  POWER_PLAN_LIST_REGEX_search
    (prefix +:+ "GUID:" +:+ ws +:+ g +:+ gap +:+ "(" +:+ name +:+ ")" +:+ rest)
  = Some (g, name).
Proof.
  intros Hp Hws Hg Hgap1 Hgap Hname. rewrite (list_search_skips prefix _ Hp).
  assert (Hm : list_match_here ("GUID:" +:+ ws +:+ g +:+ gap +:+ "(" +:+ name +:+ ")" +:+ rest)
               = Some (g, name)).
  { unfold list_match_here.
    change (take_literal "GUID:" ("GUID:" +:+ ?x)) with (Some x).
    cbv beta iota.
    rewrite (lstrip_spaces ws _ Hws), (lstrip_guid g _ Hg), (take_guid_complete g _ Hg).
    destruct gap as [|c gap]; [discriminate Hgap1|].
    pose proof Hgap as Hgap'. cbn in Hgap'. apply andb_true_iff in Hgap' as [Hc _].
    rewrite append_cons. rewrite Hc. rewrite <- append_cons.
    rewrite (lstrip_spaces (String c gap) _ Hgap).
    change ("(" +:+ name +:+ ")" +:+ rest) with (String "(" (name +:+ ")" +:+ rest)).
    cbn [lstrip isspace]. change (isspace "(") with false. cbv beta iota.
    change (Ascii.eqb "(" "(") with true. cbv beta iota.
    rewrite (take_name_complete name rest Hname). reflexivity. }
  change ("GUID:" +:+ ?x) with (String "G" ("UID:" +:+ x)) in *.
  cbn [POWER_PLAN_LIST_REGEX_search]. rewrite Hm. reflexivity.
Qed.

End SchemeList.

(** ** Loading the power schemes *)

Section SchemeLoader.

Import PowerCfgManager.

Lemma empty_schemes_ok : schemes_ok (mk ∅ ∅).
Proof. split; intros k v H; cbn in H; rewrite lookup_empty in H; discriminate. Qed.

Lemma add_scheme_ok (self : t) (line : str) : schemes_ok self -> schemes_ok (add_scheme self line).
Proof.
  intros [Hg Hn]. unfold add_scheme.
  destruct (POWER_PLAN_LIST_REGEX_search line) as [[g n]|] eqn:E; [|split; assumption].
  pose proof (list_search_sound _ _ _ E) as Hguid.
  destruct (is_guid_stripped g Hguid) as [Hs Hne]. rewrite Hs, Hne. cbn [andb].
  destruct (nonempty (strip n)) eqn:Hname; [|split; assumption].
  split; cbn [_guid_to_name_map _name_to_guid_map]; intros k v; rewrite lookup_insert;
    case_decide.
  - intros [= <-]. split; [exists g; auto|]. split; [exact Hname | apply strip_idem].
  - apply Hg.
  - intros [= <-]. exact Hguid.
  - apply Hn.
Qed.

Lemma fold_add_scheme_ok (lines : list str) : forall self,
  schemes_ok self -> schemes_ok (fold_left add_scheme lines self).
Proof.
  induction lines as [|l lines IH]; intros self H; [exact H|].
  cbn. apply IH, add_scheme_ok, H.
Qed.

Lemma add_scheme_other (self : t) (line k : str) :
  (forall g n, POWER_PLAN_LIST_REGEX_search line = Some (g, n) -> lower g <> k) ->
  _guid_to_name_map (add_scheme self line) !! k = _guid_to_name_map self !! k.
Proof.
  intros H. unfold add_scheme.
  destruct (POWER_PLAN_LIST_REGEX_search line) as [[g n]|] eqn:E; [|reflexivity].
  pose proof (list_search_sound _ _ _ E) as Hguid.
  destruct (is_guid_stripped g Hguid) as [Hs Hne]. rewrite Hs, Hne. cbn [andb].
  destruct (nonempty (strip n)); [|reflexivity].
  cbn [_guid_to_name_map]. apply lookup_insert_ne. exact (H g n eq_refl).
Qed.

Lemma fold_add_scheme_other (later : list str) (k : str) :
  Forall (fun l => forall g n, POWER_PLAN_LIST_REGEX_search l = Some (g, n) -> lower g <> k)
         later ->
  forall self,
    _guid_to_name_map (fold_left add_scheme later self) !! k = _guid_to_name_map self !! k.
Proof.
  induction 1 as [|l later Hl _ IH]; intros self; [reflexivity|].
  cbn. rewrite IH. apply add_scheme_other, Hl.
Qed.

Context {OS : Type} (subprocess_run : list str -> OS -> res CompletedProcess * OS).

(** X6 (what the loader lets in).  Whatever the system answers,
    [_load_available_schemes] hands one command line to
    [subprocess.run], [powercfg /list], and leaves two maps in which
    every identifier has the shape of a GUID, every key of the
    GUID-to-name map is the lower-case form of one, and every name is a
    non-empty, stripped string. *)
Theorem loaded_schemes_are_well_formed (self : t) (p : Proc OS) :
  let r := _load_available_schemes OS subprocess_run self p in
  schemes_ok (fst r) /\
  issued (snd r) = issued p ++ [[POWERCARD_COMMAND; LIST_ARG]].
Proof.
  unfold _load_available_schemes, run. cbv zeta.
  destruct (subprocess_run _ (os p)) as [[result|e] os'].
  - destruct (returncode result =? 0)%Z; cbn [fst snd issued].
    + split; [|reflexivity]. apply fold_add_scheme_ok, empty_schemes_ok.
    + split; [apply empty_schemes_ok | reflexivity].
  - split; [apply empty_schemes_ok | reflexivity].
Qed.

(** X7 (a listed scheme is found by its GUID).  When [powercfg /list]
    exits with 0 and one of its lines holds [GUID:], a GUID, white space
    and a name in parentheses that is not blank, and no later line
    lists the same GUID, then [get_power_plan_name_from_guid] returns
    that name, stripped, for every spelling of the GUID that differs in
    case or in surrounding white space only. *)
Theorem listed_scheme_is_found
    (self : t) (p : Proc OS) (os' : OS) (out err : str)
    (before later : list str) (prefix ws g gap name rest query : str) :
  subprocess_run [POWERCARD_COMMAND; LIST_ARG] (os p) = (Ret (Completed 0 out err), os') ->
  splitlines out =
    before ++ (prefix +:+ "GUID:" +:+ ws +:+ g +:+ gap +:+ "(" +:+ name +:+ ")" +:+ rest)
           :: later ->
  all_chars not_g prefix = true ->
  all_chars isspace ws = true ->
  is_guid g = true ->
  nonempty gap = true -> all_chars isspace gap = true ->
  all_chars not_paren_or_lf name = true ->
  nonempty (strip name) = true ->
  Forall (fun l => forall g' n', POWER_PLAN_LIST_REGEX_search l = Some (g', n') ->
                                 lower g' <> lower g) later ->
  nonempty query = true ->
  lower (strip query) = lower g ->
  get_power_plan_name_from_guid
    (fst (_load_available_schemes OS subprocess_run self p)) (Some query)
  = Some (strip name).
Proof.
  intros Hrun Hlines Hp Hws Hg Hgap1 Hgap Hname Hne Hlater Hq Hkey.
  unfold _load_available_schemes, run. rewrite Hrun.
  cbn [returncode stdout Z.eqb fst]. rewrite Hlines.
  unfold get_power_plan_name_from_guid. rewrite Hq. cbn [negb]. rewrite Hkey.
  unfold load_lines. rewrite fold_left_app. cbn [fold_left].
  rewrite (fold_add_scheme_other later _ Hlater).
  unfold add_scheme at 1.
  rewrite (list_search_complete prefix ws g gap name rest Hp Hws Hg Hgap1 Hgap Hname).
  destruct (is_guid_stripped g Hg) as [Hs Hn]. rewrite Hs, Hn, Hne. cbn [andb _guid_to_name_map].
  apply lookup_insert_eq.
Qed.

End SchemeLoader.

(** ** The listener thread *)

Section ListenerThread.

Import EventListener.












End ListenerThread.

(** ** After stop *)

Section AfterStop.

Import EventListener PowerSwitcherApp.

Context {W : Type} (C : Collaborators W).














End AfterStop.

(** ** Start, stop and the loop *)

Section StartAndStop.

Import EventListener PowerSwitcherApp.

Context {W : Type} (C : Collaborators W).

(** [EventListener.stop] when [Thread.start()] had failed. *)
Lemma listener_stop_created env self g :
  _is_running self = true ->
  _listener_thread self = Some Created ->
  exists q g' lg, EventListener.stop env self g = (Ret tt, EventListener.mk q (Some Created) false, g', lg).
Proof.
  intros Hr Ht. unfold EventListener.stop. rewrite Hr. cbn [negb _listener_thread].
  rewrite Ht. cbn [is_alive]. unfold _clear_global_state.
  destruct (same_object _ _); cbn; eauto.
Qed.

Lemma stop_listener_created env (s : Sys W) :
  _is_running (_event_listener (app s)) = true ->
  _listener_thread (_event_listener (app s)) = Some Created ->
  exists q g lg,
    stop_listener W env s =
      (Ret tt, mkSys (set_event_listener (EventListener.mk q (Some Created) false) (app s))
                     g (world s) (calls s) (log s ++ lg)).
Proof.
  intros Hr Ht. unfold stop_listener.
  destruct (listener_stop_created (listener_env env) _ (globals s) Hr Ht) as (q & g & lg & ->).
  exists q, g. eexists. unfold logm. cbn. rewrite <- app_assoc. reflexivity.
Qed.

Lemma cleanup_created env (s : Sys W) :
  _is_running (_event_listener (app s)) = true ->
  _listener_thread (_event_listener (app s)) = Some Created ->
  exists q g lg,
    _cleanup_threads_and_hooks W env s =
      (Ret tt,
       mkSys (set_processing_thread (joined env (_processing_thread (app s)))
                (set_event_listener (EventListener.mk q (Some Created) false) (app s)))
             g (world s) (calls s) (log s ++ lg)).
Proof.
  intros Hr Ht. unfold _cleanup_threads_and_hooks, bind. unfold logm at 1.
  match goal with |- context [stop_listener W env ?s0] =>
    destruct (stop_listener_created env s0 Hr Ht) as (q & g & lg & ->) end.
  match goal with |- context [join_processing_thread W env ?s0] =>
    destruct (join_processing_thread_spec env s0) as (lg' & ->) end.
  exists q, g. eexists. unfold logm. cbn. rewrite <- !app_assoc. reflexivity.
Qed.

Lemma stop_created env (s : Sys W) :
  _is_running (_event_listener (app s)) = true ->
  _listener_thread (_event_listener (app s)) = Some Created ->
  exists s',
    stop W env s = (Ret tt, s') /\
    calls s' = calls s /\ world s' = world s /\
    _running (app s') = false /\
    _event_listener (app s') =
      EventListener.mk (_processing_queue (_event_listener (app s'))) (Some Created) false /\
    _processing_thread (app s') = joined env (_processing_thread (app s)).
Proof.
  intros Hr Ht. unfold stop, bind, get_app.
  destruct (_running (app s)) eqn:Hrun; cbn [negb].
  - unfold logm at 1. unfold modify_app at 1. cbn [app globals world calls log].
    unfold put_sentinel.
    destruct (Queue.put_nowait None _) as [[u|e] q]; [|destruct e]; unfold logm at 1;
      cbn [app globals world calls log].
    all: match goal with |- context [_cleanup_threads_and_hooks _ ?en ?s0] =>
           destruct (cleanup_created en s0 Hr Ht) as (q' & g & lg & ->) end.
    all: eexists; unfold logm; cbn; split; [reflexivity|]; auto 10.
  - unfold logm at 1.
    match goal with |- context [_cleanup_threads_and_hooks _ ?en ?s0] =>
      destruct (cleanup_created en s0 Hr Ht) as (q' & g & lg & ->) end.
    eexists. split; [reflexivity|]. cbn. auto 10.
Qed.

(** X10 (the three ways [start] can end).  With the managers
    answering and the listener not yet running: if the listener thread
    cannot be started, [start] stops the application and raises
    [RuntimeError], with the running flag down and the listener marked
    as not running; if the processing thread cannot be started, the
    exception of [Thread.start()] leaves [start] with the running flag
    up and the listener running; otherwise [start] returns [True] with
    both threads started.  The managers are not called again after the
    first steps. *)
Theorem start_outcomes env (s s1 : Sys W) :
  start_managers W C s = (Ret tt, s1) ->
  _is_running (_event_listener (app s)) = false ->
  exists s',
    start W C env s =
      (match spawn_listener env, spawn_processor env with
       | Raise _, _ => Raise (RuntimeError "Failed to start EventListener, exiting.")
       | Ret _, Raise e => Raise e
       | Ret _, Ret _ => Ret true
       end, s') /\
    calls s' = calls s1 /\ world s' = world s1 /\
    _running (app s') = (match spawn_listener env with Ret _ => true | Raise _ => false end) /\
    _is_running (_event_listener (app s')) =
      (match spawn_listener env with Ret _ => true | Raise _ => false end) /\
    _listener_thread (_event_listener (app s')) =
      Some (match spawn_listener env with Ret _ => Pending | Raise _ => Created end) /\
    _processing_thread (app s') =
      match spawn_listener env, spawn_processor env with
      | Raise _, _ => joined (on_failure env) (_processing_thread (app s))
      | Ret _, Raise _ => Some Created
      | Ret _, Ret _ => Some Pending
      end.
Proof.
  intros Hm Hr. unfold start, bind. rewrite Hm.
  destruct (start_managers_app C _ _ _ Hm) as [Ha Hg]. rewrite <- Ha in Hr |- *.
  unfold start_listener, EventListener.start. rewrite Hr.
  destruct (spawn_listener env) as [u|e].
  - unfold logm at 1, start_processing. unfold_m.
    destruct (spawn_processor env); cbn; eexists; (split; [reflexivity|]); cbn; auto 10.
  - unfold bind, logm.
    match goal with |- context [stop W ?en ?s0] =>
      destruct (stop_created en s0 eq_refl eq_refl) as (s' & -> & Hc & Hw & Hrun & Hl & Ht) end.
    exists s'. unfold raise. split; [reflexivity|].
    split; [exact Hc|]. split; [exact Hw|]. split; [exact Hrun|].
    rewrite Hl. cbn. split; [reflexivity|]. split; [reflexivity|]. exact Ht.
Qed.

(** X11 (the sentinel ends the loop).  When the stop sentinel is the
    oldest item, the next pass of a running loop takes it and leaves
    the loop: no manager is called, the engine state is as it was, and
    the items behind the sentinel stay in the queue. *)
Theorem sentinel_ends_the_loop (n : nat) (s : Sys W) (rest : list Queue.Item) :
  _running (app s) = true ->
  Queue.items (_event_queue (app s)) = None :: rest ->
  exists s',
    _process_queue W C (S n) s = (Exited, s') /\
    Queue.items (_event_queue (app s')) = rest /\
    calls s' = calls s /\ world s' = world s /\
    _last_processed_process (app s') = _last_processed_process (app s) /\
    same_trackers (app s) (app s').
Proof.
  intros Hr Hq. cbn [_process_queue]. rewrite Hr.
  unfold iteration, loop_body, bind, queue_get, Queue.get. rewrite Hq. cbn.
  eexists. split; [reflexivity|]. cbn. repeat split; reflexivity.
Qed.


End StartAndStop.

(** ** The plan trackers *)

Section Trackers.

Import EventListener PowerSwitcherApp.

Context {W : Type} (C : Collaborators W).

Lemma resolve_and_query_target name (s : Sys W) t a s' :
  resolve_and_query W C name s = (Ret (Some (t, a)), s') ->
  nonempty t = true /\ strip t = t /\ nonempty a = true.
Proof.
  unfold resolve_and_query, resolve_target. unfold_m. intros H. branches H.
  all: repeat split; first [assumption | apply strip_idem].
Qed.

Lemma tracked_same (a a' : t) : same_trackers a a' -> tracked a -> tracked a'.
Proof.
  intros [Ha Hk] [[H1 H2]|(t & Hn & H1 & H2)].
  - left. split; congruence.
  - right. exists t. repeat split; congruence.
Qed.

Lemma tracked_set_applied (target : str) (a : t) :
  nonempty target = true -> tracked (set_applied target a).
Proof. intros Hn. right. exists target. auto. Qed.

Lemma process_item_tracked name (s : Sys W) r s' :
  tracked (app s) -> process_item W C name s = (r, s') -> tracked (app s').
Proof.
  intros Ht. rewrite process_item_unfold.
  destruct (resolve_and_query W C name s) as [r1 s1] eqn:E1.
  destruct (resolve_and_query_effect C _ _ _ _ E1) as (_ & cs & lg & _ & _ & _ & _ & Hcase).
  assert (tracked (app s1)) as Ht1.
  { destruct Hcase as [(_ & -> & _)|(_ & ->)]; [exact Ht|].
    revert Ht. apply tracked_same. split; reflexivity. }
  destruct r1 as [[[t a]|]|e].
  - intros E2. destruct (resolve_and_query_target _ _ _ _ _ E1) as (Hn & _).
    destruct (compare_and_switch_effect C _ _ _ _ _ _ E2)
      as (_ & _ & cs' & lg' & _ & _ & _ & _ & [->| ->]);
      [exact Ht1 | apply tracked_set_applied, Hn].
  - intros [= <- <-]. exact Ht1.
  - intros [= <- <-]. exact Ht1.
Qed.

Lemma iteration_tracked (s : Sys W) r s' :
  tracked (app s) -> iteration W C s = (r, s') -> tracked (app s').
Proof.
  intros Ht. destruct (Queue.items (_event_queue (app s))) as [|[name|] rest] eqn:Hq.
  - unfold iteration, loop_body, bind, queue_get, Queue.get. rewrite Hq.
    intros [= <- <-]. revert Ht. apply tracked_same. split; reflexivity.
  - unfold iteration. rewrite (loop_body_item C s _ _ Hq).
    destruct (process_item W C name (after_get W s)) as [r1 s1] eqn:E.
    assert (tracked (app s1)) as Ht1.
    { eapply process_item_tracked; [|exact E]. revert Ht. apply tracked_same. split; reflexivity. }
    destruct r1 as [fl|e]; [|destruct e]; cbn; intros [= <- <-]; exact Ht1.
  - unfold iteration, loop_body, bind, queue_get, Queue.get. rewrite Hq. cbn.
    intros [= <- <-]. revert Ht. apply tracked_same. split; reflexivity.
Qed.

Lemma process_queue_tracked (n : nat) : forall s : Sys W,
  tracked (app s) -> tracked (app (snd (_process_queue W C n s))).
Proof.
  induction n as [|n IH]; intros s Ht; [exact Ht|].
  cbn [_process_queue]. destruct (_running (app s)); [|exact Ht].
  destruct (iteration W C s) as [[fl|e] s'] eqn:Hi.
  - pose proof (iteration_tracked s _ _ Ht Hi) as Ht'.
    destruct fl; first [apply IH; exact Ht' | exact Ht'].
  - exact (iteration_tracked s _ _ Ht Hi).
Qed.

Lemma exec_tracked (s : Sys W) (a : Action W) :
  tracked (app s) -> tracked (app (exec W C s a)).
Proof.
  intros Ht. destruct a as [env|env| |event name|tenv quit|f]; cbn [exec].
  - revert Ht. apply tracked_same, start_same_trackers.
  - revert Ht. apply tracked_same, stop_same_trackers.
  - apply process_queue_tracked, Ht.
  - destruct (_global_win_event_callback _ _ _ _) as [p q].
    revert Ht. apply tracked_same. split; reflexivity.
  - unfold listener_thread_runs.
    destruct (run_thread _ _ _ _) as [[l g] steps].
    revert Ht. apply tracked_same. split; reflexivity.
  - exact Ht.
Qed.

(** X13 (the trackers are set together).  In every state the
    application can reach from [__init__], the two plan trackers are
    both unset, or hold a non-empty identifier and its lower-case
    form. *)
Theorem trackers_are_set_together (w : W) (acts : list (Action W)) :
  tracked (app (run W C acts (boot W w))).
Proof.
  assert (forall s : Sys W, tracked (app s) -> tracked (app (run W C acts s))) as H.
  { induction acts as [|a acts' IH]; intros s Ht; [exact Ht|].
    cbn. apply IH, exec_tracked, Ht. }
  apply H. left. split; reflexivity.
Qed.

End Trackers.

(** ** Calls, counted *)

Section Counting.

Import EventListener PowerSwitcherApp.

Context {W : Type} (C : Collaborators W).

Lemma resolve_and_query_resolves name (s : Sys W) r s' :
  _last_processed_process (app s) <> Some name ->
  resolve_and_query W C name s = (r, s') ->
  exists cs, calls s' = calls s ++ cs /\ length (List.filter is_resolution cs) = 1%nat.
Proof.
  unfold resolve_and_query, resolve_target. unfold_m. intros Hne H. branches H.
  all: try match goal with
       | Hd : bool_decide _ = true |- _ =>
           apply bool_decide_eq_true in Hd; exfalso; apply Hne; congruence
       end.
  all: rewrite <- ?app_assoc; cbn [app]; eexists; split; reflexivity.
Qed.

(** The calls of one process name, counted. *)
Lemma process_item_counts name (s : Sys W) r s' :
  process_item W C name s = (r, s') ->
  r <> Ret Break /\
  _last_processed_process (app s') = Some name /\
  _event_queue (app s') = _event_queue (app s) /\
  _running (app s') = _running (app s) /\
  exists cs, calls s' = calls s ++ cs /\
    length (List.filter is_resolution cs) =
      (if bool_decide (Some name = _last_processed_process (app s)) then 0 else 1)%nat /\
    (length (List.filter is_switch cs) <=
      (if bool_decide (Some name = _last_processed_process (app s)) then 0 else 1))%nat.
Proof.
  rewrite process_item_unfold.
  destruct (resolve_and_query W C name s) as [r1 s1] eqn:E1.
  destruct (resolve_and_query_effect C _ _ _ _ E1)
    as (_ & cs & lg & Hc & _ & Hsw & _ & Hcase).
  destruct Hcase as [(Hlast & Ha & _ & -> & ->)|(Hne & Ha)].
  - intros [= <- <-]. split; [discriminate|]. rewrite Ha.
    repeat (split; [first [exact Hlast | reflexivity]|]).
    exists []. split; [exact Hc|].
    rewrite (bool_decide_eq_true_2 _ (eq_sym Hlast)). cbn. auto.
  - destruct (resolve_and_query_resolves _ _ _ _ Hne E1) as (cs2 & Hc2 & Hres).
    assert (cs2 = cs) as -> by (rewrite Hc in Hc2; exact (eq_sym (app_inv_head _ _ _ Hc2))).
    assert (bool_decide (Some name = _last_processed_process (app s)) = false) as Hb
      by (apply bool_decide_eq_false_2; congruence).
    rewrite Hb.
    destruct r1 as [[[t a]|]|e].
    + intros E2.
      destruct (compare_and_switch_effect C _ _ _ _ _ _ E2)
        as (_ & Hr & cs' & lg' & Hc' & _ & Hsw' & Hres' & Happ).
      split; [exact Hr|].
      assert (_last_processed_process (app s') = Some name /\
              _event_queue (app s') = _event_queue (app s) /\
              _running (app s') = _running (app s)) as (H1 & H2 & H3)
        by (destruct Happ as [->| ->]; rewrite Ha; cbn; auto).
      do 3 (split; [assumption|]).
      exists (cs ++ cs'). rewrite Hc', Hc, app_assoc, !List.filter_app, !length_app.
      rewrite Hsw, Hres', Hres. cbn. split; [reflexivity|]. split; [reflexivity | lia].
    + intros [= <- <-]. split; [discriminate|]. rewrite Ha.
      do 3 (split; [reflexivity|]). exists cs. rewrite Hsw. cbn. auto.
    + intros [= <- <-]. split; [discriminate|]. rewrite Ha.
      do 3 (split; [reflexivity|]). exists cs. rewrite Hsw. cbn. auto.
Qed.

Lemma iteration_counts (s : Sys W) name rest :
  Queue.items (_event_queue (app s)) = Some name :: rest ->
  exists fl s',
    iteration W C s = (Ret fl, s') /\ fl <> Break /\
    _last_processed_process (app s') = Some name /\
    Queue.items (_event_queue (app s')) = rest /\
    _running (app s') = _running (app s) /\
    exists cs, calls s' = calls s ++ cs /\
      length (List.filter is_resolution cs) =
        (if bool_decide (Some name = _last_processed_process (app s)) then 0 else 1)%nat /\
      (length (List.filter is_switch cs) <=
        (if bool_decide (Some name = _last_processed_process (app s)) then 0 else 1))%nat.
Proof.
  intros Hq. unfold iteration. rewrite (loop_body_item C s _ _ Hq).
  destruct (process_item W C name (after_get W s)) as [r1 s1] eqn:E.
  destruct (process_item_counts _ _ _ _ E) as (Hr & Hl & Hqq & Hrun & cs & Hc & Hres & Hsw).
  cbn in Hqq, Hrun, Hc, Hres, Hsw. rewrite Hq in Hqq. cbn in Hqq.
  destruct r1 as [fl|e]; [|destruct e]; cbn.
  all: do 2 eexists; split; [reflexivity|]; split; [first [congruence | discriminate]|].
  all: cbn; rewrite ?Hqq; repeat (split; [first [assumption | reflexivity]|]); eauto.
Qed.

(** X14 (one resolution per change of the foreground program).
    While the loop runs through a batch of waiting process names,
    whatever the managers answer or raise, the plan is resolved exactly
    once for each name that differs from the one before it, at most one
    switch is attempted for each of these, and what waited behind the
    batch is left in the queue. *)
Theorem one_resolution_per_change (names : list str) : forall (s : Sys W) (rest : list Queue.Item),
  _running (app s) = true ->
  Queue.items (_event_queue (app s)) = map Some names ++ rest ->
  let sn := snd (_process_queue W C (length names) s) in
  length (List.filter is_resolution (calls_since W s sn)) =
    changes (_last_processed_process (app s)) names /\
  (length (List.filter is_switch (calls_since W s sn)) <=
    changes (_last_processed_process (app s)) names)%nat /\
  Queue.items (_event_queue (app sn)) = rest.
Proof.
  assert (forall (s : Sys W) (rest : list Queue.Item),
    _running (app s) = true ->
    Queue.items (_event_queue (app s)) = map Some names ++ rest ->
    let sn := snd (_process_queue W C (length names) s) in
    Queue.items (_event_queue (app sn)) = rest /\
    exists cs, calls sn = calls s ++ cs /\
      length (List.filter is_resolution cs) = changes (_last_processed_process (app s)) names /\
      (length (List.filter is_switch cs) <= changes (_last_processed_process (app s)) names)%nat)
    as H.
  { induction names as [|n names' IH]; intros s rest Hr Hq.
    - cbn. split; [exact Hq|]. exists []. rewrite app_nil_r. cbn. auto.
    - cbn [map app] in Hq.
      destruct (iteration_counts s n _ Hq)
        as (fl & s1 & Hi & Hfl & Hl & Hq1 & Hr1 & cs & Hc & Hres & Hsw).
      cbn [length]. cbv zeta. rewrite (process_queue_step C _ s _ _ Hr Hi Hfl).
      rewrite Hr in Hr1.
      destruct (IH s1 rest Hr1 Hq1) as (Hq2 & cs' & Hc' & Hres' & Hsw').
      split; [exact Hq2|]. exists (cs ++ cs').
      rewrite Hc', Hc, app_assoc, !List.filter_app, !length_app, Hres, Hres'.
      rewrite Hl in *. cbn [changes]. split; [reflexivity|]. split; [reflexivity|]. lia. }
  intros s rest Hr Hq. destruct (H s rest Hr Hq) as (Hq' & cs & Hc & Hres & Hsw).
  cbv zeta. rewrite (calls_since_app _ _ _ Hc). auto.
Qed.

End Counting.

(** ** Process names and notifications *)

Section ProcessNames.

Import ProcessInfo.

(** X15 (an opened process handle is closed).  In
    [get_process_name_from_hwnd], a process handle that [OpenProcess]
    returned and that is not NULL is closed by the last call made,
    whether the query of the image name succeeds, fails or raises;
    [CloseHandle] is called at most once and only on such a handle; and
    a name is returned only as the base name of a path that the query
    delivered. *)
Theorem opened_handle_is_closed (w : Win32) (hwnd : option Z) (r : option str) (api : list Api) :
  get_process_name_from_hwnd w hwnd = (r, api) ->
  (forall pid h, In (Api_OpenProcess pid) api -> OpenProcess w pid = Ret (Some h) -> h <> 0%Z ->
     last api = Some (Api_CloseHandle h)) /\
  (forall h, In (Api_CloseHandle h) api ->
     h <> 0%Z /\
     (exists pid, In (Api_OpenProcess pid) api /\ OpenProcess w pid = Ret (Some h)) /\
     List.filter (fun a => match a with Api_CloseHandle _ => true | _ => false end) api
       = [Api_CloseHandle h]) /\
  (forall name, r = Some name ->
     exists h path, In (Api_CloseHandle h) api /\
       QueryFullProcessImageNameW w h = Ret (true, path) /\ name = basename w path).
Proof.
  unfold get_process_name_from_hwnd, close. intros H.
  repeat (case_match; simplify_eq/=).
  all: repeat match goal with
       | Hz : (_ =? _)%Z = true |- _ => apply Z.eqb_eq in Hz
       | Hz : (_ =? _)%Z = false |- _ => apply Z.eqb_neq in Hz
       | Hz : negb _ = true |- _ => apply negb_true_iff in Hz
       | Hz : negb _ = false |- _ => apply negb_false_iff in Hz
       end.
  all: split; [intros pid h0 Hin Ho Hnz | split; [intros h0 Hin | intros name0 Hname]].
  all: cbn in *; try discriminate; try contradiction.
  all: repeat match goal with
       | Hin : _ \/ _ |- _ => destruct Hin as [Hin|Hin]
       | Hin : False |- _ => contradiction
       end; simplify_eq/=; try congruence.
  all: try (split; [assumption|split; [eexists; split; [right; left; reflexivity|eassumption]|reflexivity]]).
  all: try (do 2 eexists; split; [do 3 right; left; reflexivity|split; [eassumption|reflexivity]]).
Qed.

Import EventListener.

(** X16 (what a notification can do to the queue).  A notification of
    another event class makes no Win32 call and leaves the queue alone.
    Any notification leaves the queue as it was or appends one item at
    its end: the non-empty process name found for the window. *)
Theorem notification_appends_at_most_one_name
    (w : Win32) (event : Z) (hwnd : option Z) (g : Global.t) (q q' : Queue.t)
    (r : Published) (api : list Api) :
  on_win_event w event hwnd g q = (r, q', api) ->
  (event <> EVENT_SYSTEM_FOREGROUND -> r = Ignored /\ q' = q /\ api = []) /\
  (q' = q \/
   r = Delivered /\
   exists name, fst (get_process_name_from_hwnd w hwnd) = Some name /\
     nonempty name = true /\
     q' = Queue.mk (Queue.maxsize q) (Queue.items q ++ [Some name])).
Proof.
  unfold on_win_event. intros H.
  destruct (Z.eqb_spec event EVENT_SYSTEM_FOREGROUND) as [->|Hne]; cbn [negb] in H.
  - split; [intros Hc; contradiction|].
    destruct (get_process_name_from_hwnd w hwnd) as [[name|] api0].
    2:{ cbn in H. simplify_eq. left. reflexivity. }
    unfold _global_win_event_callback, Queue.put_nowait in H. cbn in H.
    destruct (nonempty name) eqn:Hn; cbn in H; [|simplify_eq; left; reflexivity].
    repeat (case_match; simplify_eq/=); auto.
    right. split; [reflexivity|]. exists name. auto.
  - simplify_eq. split; [auto | left; reflexivity].
Qed.

End ProcessNames.

(** ** The logging set-up *)

Section LoggingSetUp.

Import LoggingConfig.

(** X17 (logging is configured once).  After [configure_logging] the
    root logger has a handler, and a second call, whatever level it
    asks for, changes nothing.  On a root logger without handlers the
    call sets the level asked for (or the default) and installs the
    console handler last, behind the file handler when that one could
    be created; a root logger with handlers is left as it was. *)
Theorem logging_is_configured_once (l1 l2 : option Z) (f1 f2 : res unit) (root : RootLogger) :
  let r1 := configure_logging l1 f1 root in
  let level := match l1 with Some l => l | None => DEFAULT_LOG_LEVEL end in
  configure_logging l2 f2 r1 = r1 /\
  handlers r1 <> [] /\
  match handlers root with
  | [] =>
      root_level r1 = level /\
      handlers r1 =
        match f1 with
        | Ret _ => [RotatingFileHandler level; StreamHandler level]
        | Raise _ => [StreamHandler level]
        end
  | _ :: _ => r1 = root
  end.
Proof.
  unfold configure_logging. destruct root as [lv hs]. cbn [handlers].
  destruct hs as [|h hs]; cbv zeta.
  - destruct f1 as [u|e]; cbn; (split; [reflexivity|]); (split; [discriminate|]);
      split; reflexivity.
  - cbn. split; [reflexivity|]. split; [discriminate | reflexivity].
Qed.

End LoggingSetUp.

(** ** The channel, in order *)

Section Fifo.

Import EventListener.

Lemma drain_items (m : Z) (l : list Queue.Item) : forall r,
  Queue.drain (length l) (Queue.mk m (l ++ r)) = (map Ret l, Queue.mk m r).
Proof.
  induction l as [|x l IH]; intros r; [reflexivity|].
  cbn. rewrite IH. reflexivity.
Qed.

(** X18 (first in, first out).  The names published into a fresh
    channel of capacity [k >= 1] are received in the order of their
    publication: as many calls of [get] as names were kept return the
    first [k] names, one after the other, and the next [get] finds the
    queue empty. *)
Theorem published_names_arrive_in_order (g : Global.t) (k : nat) (names : list str) :
  Global._processing_queue g = Some event_queue ->
  Forall (fun n => nonempty n = true) names ->
  (0 < k)%nat ->
  let q := snd (publish_all names g (Queue.new (Z.of_nat k))) in
  let kept := take k names in
  Queue.drain (length kept) q = (map (fun n => Ret (Some n)) kept, Queue.new (Z.of_nat k)) /\
  fst (Queue.get (snd (Queue.drain (length kept) q))) = Raise QueueEmpty.
Proof.
  intros Hg Hn Hk. cbv zeta. unfold Queue.new.
  rewrite (publish_all_fill g k names Hg Hn Hk []) by (cbn; lia).
  cbn [snd length app]. rewrite Nat.sub_0_r.
  pose proof (drain_items (Z.of_nat k) (map Some (take k names)) []) as H.
  rewrite app_nil_r, length_map, map_map in H. rewrite H. split; reflexivity.
Qed.

End Fifo.

(** ** One pass of the application as it is wired *)

Section WiredPass.

Import EventListener PowerSwitcherApp Wiring.

Context {OS : Type} (subprocess_run : list str -> OS -> res PowerCfgManager.CompletedProcess * OS).

Lemma active_guid_shape (p p' : PowerCfgManager.Proc OS) (g : str) :
  PowerCfgManager.get_active_scheme_guid OS subprocess_run p = (Some g, p') ->
  nonempty g = true /\
  PowerCfgManager.issued p' =
    PowerCfgManager.issued p ++ [[PowerCfgManager.POWERCARD_COMMAND;
                                  PowerCfgManager.GET_ACTIVE_SCHEME_ARG]].
Proof.
  intros H.
  pose proof (get_active_scheme_guid_issues subprocess_run p) as Hi.
  pose proof (get_active_scheme_guid_shape subprocess_run p g) as Hg.
  rewrite H in Hi, Hg. cbn [fst snd] in Hi, Hg.
  split; [exact (proj2 (is_guid_stripped g (Hg eq_refl))) | exact Hi].
Qed.

Lemma switch_power_plan_issues (p : PowerCfgManager.Proc OS) (t : str) :
  nonempty t = true -> strip t = t ->
  PowerCfgManager.issued (snd (PowerCfgManager.switch_power_plan OS subprocess_run (Some t) p)) =
    PowerCfgManager.issued p ++ [[PowerCfgManager.POWERCARD_COMMAND;
                                  PowerCfgManager.SET_ACTIVE_ARG; t]].
Proof.
  intros Hn Hs. unfold PowerCfgManager.switch_power_plan, PowerCfgManager.run.
  rewrite Hn, Hs. cbn [negb].
  destruct (subprocess_run _ _) as [[cp|e] os']; reflexivity.
Qed.

(** X19 (a mapped program whose plan is not active).  On the
    application wired to its ConfigManager and PowerCfgManager: when
    the name taken from the queue is not the one processed last, the
    configuration maps it to a plan, and the GUID read from the system
    differs from that plan in more than case, the pass hands two
    command lines to [subprocess.run], [powercfg /getactivescheme] and
    [powercfg /setactive] with the plan as configured, and sets the
    trackers to the plan exactly when the second command exits
    with 0. *)
Theorem mapped_program_switches_the_plan
    (s : Sys (World OS)) (name target g : str) (rest : list Queue.Item)
    (p1 : PowerCfgManager.Proc OS) :
  Queue.items (_event_queue (app s)) = Some name :: rest ->
  _last_processed_process (app s) <> Some name ->
  ConfigManager.reachable (config_manager (world s)) ->
  ConfigManager.get_power_plan_for_process (config_manager (world s)) name = Some target ->
  PowerCfgManager.get_active_scheme_guid OS subprocess_run (proc (world s)) = (Some g, p1) ->
  lower g <> lower target ->
  let switched := PowerCfgManager.switch_power_plan OS subprocess_run (Some target) p1 in
  exists lg,
    iteration (World OS) (collaborators OS subprocess_run) s =
      (Ret FallThrough,
       mkSys ((if fst switched then set_applied target else fun a => a)
                (set_last_processed_process (Some name) (app (after_get (World OS) s))))
             (globals s)
             (mkWorld (config_file (world s)) (config_manager (world s))
                      (power_manager (world s)) (snd switched))
             (calls s ++ [Call_get_power_plan_for_process name;
                          Call_get_active_scheme_guid;
                          Call_get_power_plan_name_from_guid g;
                          Call_get_power_plan_name_from_guid target;
                          Call_switch_power_plan target])
             (log s ++ lg)) /\
    PowerCfgManager.issued (snd switched) =
      PowerCfgManager.issued (proc (world s)) ++
        [[PowerCfgManager.POWERCARD_COMMAND; PowerCfgManager.GET_ACTIVE_SCHEME_ARG];
         [PowerCfgManager.POWERCARD_COMMAND; PowerCfgManager.SET_ACTIVE_ARG; target]].
Proof.
  intros Hq Hlast Hreach Hget Hact Hne switched.
  assert (nonempty target = true /\ strip target = target) as [Hn Hs].
  { unfold ConfigManager.get_power_plan_for_process in Hget.
    destruct (negb (nonempty name)); [discriminate|].
    exact (reachable_clean _ Hreach _ _ Hget). }
  destruct (active_guid_shape _ _ _ Hact) as [Hg Hissued].
  pose proof (switch_power_plan_issues p1 target Hn Hs) as Hsw. fold switched in Hsw.
  assert (Hrq : exists lg1,
    resolve_and_query (World OS) (collaborators OS subprocess_run) name (after_get (World OS) s) =
      (Ret (Some (target, g)),
       mkSys (set_last_processed_process (Some name) (app (after_get (World OS) s)))
             (globals s)
             (mkWorld (config_file (world s)) (config_manager (world s))
                      (power_manager (world s)) p1)
             (calls s ++ [Call_get_power_plan_for_process name; Call_get_active_scheme_guid])
             (log s ++ lg1))).
  { unfold resolve_and_query, resolve_target. unfold_m.
    cbn [app globals world calls log after_get _last_processed_process set_event_queue].
    rewrite (bool_decide_eq_false_2 _ (fun H => Hlast (eq_sym H))).
    cbn [collaborators cm_get_power_plan_for_process pm_get_active_scheme_guid
         app globals world calls log config_manager proc config_file power_manager].
    rewrite Hget. cbn [app globals world calls log]. rewrite Hs, Hn.
    cbn [collaborators cm_get_power_plan_for_process pm_get_active_scheme_guid
         app globals world calls log config_manager proc config_file power_manager].
    rewrite Hact, Hg. rewrite <- ?app_assoc. cbn [app List.app]. eexists. reflexivity. }
  destruct Hrq as [lg1 Hrq].
  unfold iteration. rewrite (loop_body_item _ s _ _ Hq), process_item_unfold, Hrq.
  match goal with |- context [compare_and_switch _ ?C0 name target g ?s1] =>
    destruct (compare_differ C0 name target g s1 (Ret (fst switched))
                (mkWorld (config_file (world s)) (config_manager (world s))
                         (power_manager (world s)) (snd switched))
                (wired_names_return subprocess_run) Hne) as [lg2 Hc]
  end.
  { cbn [collaborators pm_switch_power_plan world proc config_file config_manager power_manager].
    subst switched. destruct (PowerCfgManager.switch_power_plan _ _ _ _). reflexivity. }
  rewrite Hc. cbn [app globals world calls log].
  exists (lg1 ++ lg2). split.
  - rewrite <- !app_assoc. cbn [List.app]. destruct (fst switched); reflexivity.
  - rewrite Hsw, Hissued, <- app_assoc. reflexivity.
Qed.

End WiredPass.

(** ** The further statements at work on the desk *)

Section OnTheDeskAgain.

Import EventListener PowerSwitcherApp.

(** An entry written with capitals and a trailing blank, looked up in
    capitals. *)
Lemma update_app_power_map_then_lookup_witness :
  ConfigManager.get_power_plan_for_process
    (ConfigManager.update_app_power_map ConfigManager.init
       ([] ++ ("Chrome.exe ", " 8c5e7fda-e8bf-4a96-9a85-a6e23a8c635c ")
           :: [("notepad.exe", Desk.GUID_POWER_SAVER)]))
    " CHROME.EXE"
  = Some Desk.GUID_HIGH_PERFORMANCE.
Proof.
  assert (Hlater : Forall (fun kv : str * str => lower (strip (fst kv)) <> lower (strip "Chrome.exe "))
                          [("notepad.exe", Desk.GUID_POWER_SAVER)])
    by (constructor; [vm_compute; discriminate | constructor]).
  exact (update_app_power_map_then_lookup ConfigManager.init []
           [("notepad.exe", Desk.GUID_POWER_SAVER)]
           "Chrome.exe " " 8c5e7fda-e8bf-4a96-9a85-a6e23a8c635c " " CHROME.EXE"
           eq_refl eq_refl Hlater eq_refl).
Defined.

(** The same entry in a file without a [General] section. *)
Lemma load_config_then_lookup_witness :
  ConfigManager.get_power_plan_for_process
    (snd (ConfigManager.load_config ConfigManager.init
            (ConfigManager.Parsed ConfigManager.GeneralAbsent
               (ConfigManager.MapItems
                  ([] ++ ("Chrome.exe ", " 8c5e7fda-e8bf-4a96-9a85-a6e23a8c635c ")
                      :: [("notepad.exe", Desk.GUID_POWER_SAVER)])))))
    " CHROME.EXE"
  = Some Desk.GUID_HIGH_PERFORMANCE.
Proof.
  assert (Hlater : Forall (fun kv : str * str => lower (strip (fst kv)) <> lower (strip "Chrome.exe "))
                          [("notepad.exe", Desk.GUID_POWER_SAVER)])
    by (constructor; [vm_compute; discriminate | constructor]).
  exact (proj2 (load_config_then_lookup ConfigManager.init ConfigManager.GeneralAbsent []
                  [("notepad.exe", Desk.GUID_POWER_SAVER)]
                  "Chrome.exe " " 8c5e7fda-e8bf-4a96-9a85-a6e23a8c635c " " CHROME.EXE"
                  eq_refl eq_refl Hlater eq_refl)).
Defined.

(** The plan of [chrome.exe] on the desk. *)
Lemma config_hands_out_clean_plans_witness :
  nonempty Desk.GUID_HIGH_PERFORMANCE = true /\
  strip Desk.GUID_HIGH_PERFORMANCE = Desk.GUID_HIGH_PERFORMANCE /\
  nonempty "chrome.exe" = true.
Proof.
  assert (Hreach : ConfigManager.reachable Desk.config)
    by apply ConfigManager.reach_load_config, ConfigManager.reach_init.
  assert (Hget : ConfigManager.get_power_plan_for_process Desk.config "chrome.exe" =
                 Some Desk.GUID_HIGH_PERFORMANCE) by (vm_compute; reflexivity).
  exact (config_hands_out_clean_plans Desk.config "chrome.exe" _ Hreach Hget).
Defined.

(** The desk answers [Power Scheme GUID: ...  (plan)]. *)
Lemma active_scheme_read_back_witness :
  PowerCfgManager.get_active_scheme_guid Desk.t Desk.subprocess_run
    (PowerCfgManager.mkProc (Desk.mk Desk.GUID_POWER_SAVER true) [])
  = (Some Desk.GUID_POWER_SAVER,
     PowerCfgManager.mkProc (Desk.mk Desk.GUID_POWER_SAVER true)
       ([] ++ [[PowerCfgManager.POWERCARD_COMMAND; PowerCfgManager.GET_ACTIVE_SCHEME_ARG]])).
Proof.
  exact (active_scheme_read_back Desk.subprocess_run
           (PowerCfgManager.mkProc (Desk.mk Desk.GUID_POWER_SAVER true) [])
           (Desk.mk Desk.GUID_POWER_SAVER true)
           "Power Scheme " " " Desk.GUID_POWER_SAVER "  (plan)" ""
           eq_refl eq_refl eq_refl eq_refl).
Defined.

(** The balanced plan in the list of the desk, asked for in capitals. *)
Lemma listed_scheme_is_found_witness :
  PowerCfgManager.get_power_plan_name_from_guid
    (fst (PowerCfgManager._load_available_schemes unit Desk.listing
            (PowerCfgManager.mk ∅ ∅) (PowerCfgManager.mkProc tt [])))
    (Some " 381B4222-F694-41F0-9685-FF5BB260DF2E")
  = Some "Balanced".
Proof.
  assert (Hlines : splitlines Desk.LIST_OUTPUT =
            [""; "Existing Power Schemes (* Active)"; "-----------------------------------"]
            ++ ("Power Scheme " +:+ "GUID:" +:+ " " +:+ ConfigManager.GUID_BALANCED +:+ "  "
                  +:+ "(" +:+ "Balanced" +:+ ")" +:+ " *")
            :: ["Power Scheme GUID: 8c5e7fda-e8bf-4a96-9a85-a6e23a8c635c  (High performance)"])
    by (vm_compute; reflexivity).
  assert (Hlater : Forall (fun l => forall g' n',
              PowerCfgManager.POWER_PLAN_LIST_REGEX_search l = Some (g', n') ->
              lower g' <> lower ConfigManager.GUID_BALANCED)
            ["Power Scheme GUID: 8c5e7fda-e8bf-4a96-9a85-a6e23a8c635c  (High performance)"]).
  { constructor; [|constructor]. intros g' n' H. vm_compute in H.
    injection H as <- <-. vm_compute. discriminate. }
  exact (listed_scheme_is_found Desk.listing (PowerCfgManager.mk ∅ ∅)
           (PowerCfgManager.mkProc tt []) tt Desk.LIST_OUTPUT ""
           [""; "Existing Power Schemes (* Active)"; "-----------------------------------"]
           ["Power Scheme GUID: 8c5e7fda-e8bf-4a96-9a85-a6e23a8c635c  (High performance)"]
           "Power Scheme " " " ConfigManager.GUID_BALANCED "  " "Balanced" " *"
           " 381B4222-F694-41F0-9685-FF5BB260DF2E"
           eq_refl Hlines eq_refl eq_refl eq_refl eq_refl eq_refl eq_refl eq_refl
           Hlater eq_refl eq_refl).
Defined.


(** No thread can be created: [start] fails and leaves the application
    stopped. *)
Lemma start_outcomes_witness :
  exists s',
    start _ Desk.managers Desk.no_threads (boot _ (Desk.world Desk.GUID_POWER_SAVER true)) =
      (Raise (RuntimeError "Failed to start EventListener, exiting."), s') /\
    _running (app s') = false /\
    _is_running (_event_listener (app s')) = false.
Proof.
  pose (s := boot _ (Desk.world Desk.GUID_POWER_SAVER true)).
  assert (Hm : start_managers _ Desk.managers s =
               (Ret tt, snd (start_managers _ Desk.managers s))) by (vm_compute; reflexivity).
  destruct (start_outcomes Desk.managers Desk.no_threads s _ Hm eq_refl)
    as (s' & E & _ & _ & Hr & Hl & _).
  exists s'. split; [exact E|]. split; [exact Hr | exact Hl].
Defined.

(** The sentinel in front of [chrome.exe]. *)
Lemma sentinel_ends_the_loop_witness :
  exists s',
    _process_queue _ Desk.managers 1 Desk.closing = (Exited, s') /\
    Queue.items (_event_queue (app s')) = [Some "chrome.exe"] /\
    calls s' = [].
Proof.
  destruct (sentinel_ends_the_loop Desk.managers 0 Desk.closing [Some "chrome.exe"]
              eq_refl eq_refl) as (s' & E & Hq & Hc & _).
  exists s'. split; [exact E|]. split; [exact Hq | exact Hc].
Defined.

(** [chrome.exe] twice, then another program: two resolutions. *)
Lemma one_resolution_per_change_witness :
  length (List.filter is_resolution
            (calls_since _ Desk.chrome_twice
               (snd (_process_queue _ Desk.managers 3 Desk.chrome_twice)))) = 2%nat.
Proof.
  exact (proj1 (one_resolution_per_change Desk.managers
                  ["chrome.exe"; "chrome.exe"; "unknown.exe"] Desk.chrome_twice []
                  eq_refl eq_refl)).
Defined.

(** The window 1001 belongs to the process 4242, opened as handle 88. *)
Lemma opened_handle_is_closed_witness :
  last (snd (ProcessInfo.get_process_name_from_hwnd Desk.win32 (Some 1001%Z))) =
    Some (ProcessInfo.Api_CloseHandle 88) /\
  fst (ProcessInfo.get_process_name_from_hwnd Desk.win32 (Some 1001%Z)) = Some "chrome.exe".
Proof.
  destruct (opened_handle_is_closed Desk.win32 (Some 1001%Z) (Some "chrome.exe")
              [ProcessInfo.Api_GetWindowThreadProcessId 1001; ProcessInfo.Api_OpenProcess 4242;
               ProcessInfo.Api_QueryFullProcessImageNameW 88; ProcessInfo.Api_CloseHandle 88]
              eq_refl) as [H _].
  split; [|reflexivity].
  apply (H 4242%Z 88%Z); [right; left; reflexivity | reflexivity | discriminate].
Defined.

(** The browser comes to the front while the queue is empty. *)
Lemma notification_appends_at_most_one_name_witness :
  Queue.mk 100 [Some "chrome.exe"] = Queue.new 100 \/
  Delivered = Delivered /\
  exists name,
    fst (ProcessInfo.get_process_name_from_hwnd Desk.win32 (Some 1001%Z)) = Some name /\
    nonempty name = true /\
    Queue.mk 100 [Some "chrome.exe"] =
      Queue.mk (Queue.maxsize (Queue.new 100)) (Queue.items (Queue.new 100) ++ [Some name]).
Proof.
  exact (proj2 (notification_appends_at_most_one_name Desk.win32 EVENT_SYSTEM_FOREGROUND
                  (Some 1001%Z) Desk.registered (Queue.new 100)
                  (Queue.mk 100 [Some "chrome.exe"]) Delivered
                  [ProcessInfo.Api_GetWindowThreadProcessId 1001; ProcessInfo.Api_OpenProcess 4242;
                   ProcessInfo.Api_QueryFullProcessImageNameW 88; ProcessInfo.Api_CloseHandle 88]
                  eq_refl)).
Defined.

(** Capacity 2, three publications, two receptions. *)
Lemma published_names_arrive_in_order_witness :
  Queue.drain 2 (snd (publish_all ["a.exe"; "b.exe"; "c.exe"] Desk.registered (Queue.new 2))) =
    ([Ret (Some "a.exe"); Ret (Some "b.exe")], Queue.new 2).
Proof.
  assert (Hnames : Forall (fun n => nonempty n = true) ["a.exe"; "b.exe"; "c.exe"])
    by (repeat constructor).
  assert (Hk : (0 < 2)%nat) by lia.
  exact (proj1 (published_names_arrive_in_order Desk.registered 2 ["a.exe"; "b.exe"; "c.exe"]
                  eq_refl Hnames Hk)).
Defined.

(** [chrome.exe] comes to the front while the power saver is active. *)
Lemma mapped_program_switches_the_plan_witness :
  PowerCfgManager.issued
    (Wiring.proc
       (world (snd (iteration _ (Wiring.collaborators Desk.t Desk.subprocess_run)
                      (Desk.waiting ["chrome.exe"] (Desk.world Desk.GUID_POWER_SAVER true))))))
  = [[PowerCfgManager.POWERCARD_COMMAND; PowerCfgManager.GET_ACTIVE_SCHEME_ARG];
     [PowerCfgManager.POWERCARD_COMMAND; PowerCfgManager.SET_ACTIVE_ARG;
      Desk.GUID_HIGH_PERFORMANCE]].
Proof.
  pose (s := Desk.waiting ["chrome.exe"] (Desk.world Desk.GUID_POWER_SAVER true)).
  assert (Hlast : _last_processed_process (app s) <> Some "chrome.exe") by discriminate.
  assert (Hreach : ConfigManager.reachable (Wiring.config_manager (world s)))
    by apply ConfigManager.reach_load_config, ConfigManager.reach_init.
  assert (Hget : ConfigManager.get_power_plan_for_process (Wiring.config_manager (world s))
                   "chrome.exe" = Some Desk.GUID_HIGH_PERFORMANCE) by (vm_compute; reflexivity).
  assert (Hact : PowerCfgManager.get_active_scheme_guid Desk.t Desk.subprocess_run
                   (Wiring.proc (world s)) =
                 (Some Desk.GUID_POWER_SAVER,
                  snd (PowerCfgManager.get_active_scheme_guid Desk.t Desk.subprocess_run
                         (Wiring.proc (world s))))) by (vm_compute; reflexivity).
  assert (Hne : lower Desk.GUID_POWER_SAVER <> lower Desk.GUID_HIGH_PERFORMANCE)
    by (vm_compute; discriminate).
  destruct (mapped_program_switches_the_plan Desk.subprocess_run s "chrome.exe"
              Desk.GUID_HIGH_PERFORMANCE Desk.GUID_POWER_SAVER [] _
              eq_refl Hlast Hreach Hget Hact Hne) as (lg & E & Hi).
  fold s. rewrite E. exact Hi.
Defined.

End OnTheDeskAgain.
